(** * aipal: agent adapter, thread store and agent runner

    A shallow embedding of the command builder and output parser of the
    codex adapter (src/agent.js), of the thread store (src/thread-store.js)
    and of the agent runner (src/services/agent-runner.js), with the
    properties of the specification that concern them; and, with further
    properties of the code, of the event counter of the memory service
    (src/services/memory.js) and of the labels and pages of the menus
    (src/commands/settings.js).

    Conventions.  A JavaScript string is a Rocq [string]; its characters
    stand for the code units of the JavaScript string (the embedding covers
    the code units below 256).  A value that may be [undefined] is an
    [option]; the truthiness tests of the source ([if (x)], [!x], [x || y])
    are written out with [truthy]. *)

From Stdlib Require Import String Ascii List ZArith Lia Bool.
From stdpp Require Import base option gmap strings list pretty.

Local Open Scope Z_scope.
Local Open Scope list_scope.

(** ** JavaScript string primitives *)

Module Js.

(** White space of [String.prototype.trim] among the code units below 256:
    TAB, LF, VT, FF, CR, SPACE and NO-BREAK SPACE. *)
Definition is_space (c : ascii) : bool :=
  let n := nat_of_ascii c in
  ((9 <=? n)%nat && (n <=? 13)%nat) || (n =? 32)%nat || (n =? 160)%nat.

Fixpoint trimStart (s : string) : string :=
  match s with
  | EmptyString => EmptyString
  | String c r => if is_space c then trimStart r else s
  end.

Fixpoint trimEnd (s : string) : string :=
  match s with
  | EmptyString => EmptyString
  | String c r =>
      match trimEnd r with
      | EmptyString => if is_space c then EmptyString else String c EmptyString
      | r' => String c r'
      end
  end.

Definition trim (s : string) : string := trimEnd (trimStart s).

(** [s.startsWith(p)] *)
Definition startsWith (p s : string) : bool := String.prefix p s.

(** [s.includes(needle)] *)
Fixpoint includes (needle s : string) : bool :=
  String.prefix needle s ||
  match s with
  | EmptyString => false
  | String _ r => includes needle r
  end.

(** [xs.join(sep)] *)
Fixpoint join (sep : string) (xs : list string) : string :=
  match xs with
  | [] => ""
  | [x] => x
  | x :: rest => x +:+ sep +:+ join sep rest
  end.

(** A string is truthy when it is not empty; [undefined] is falsy. *)
Definition truthy (v : option string) : bool :=
  match v with
  | Some (String _ _) => true
  | _ => false
  end.

(** [a || b] on strings. *)
Definition or_else (a b : string) : string :=
  match a with
  | EmptyString => b
  | _ => a
  end.

End Js.

(** ** The codex adapter: command builder (src/agent.js) *)

Definition CODEX_CMD : string := "codex".
Definition BASE_ARGS : string := "--json --skip-git-repo-check".
Definition MODEL_ARG : string := "--model".
Definition THINKING_ARG : string := "--thinking".

Definition squote : ascii := "'"%char.

(** [String(value).replace(/'/g, String.raw`'\''`)] *)
Fixpoint escapeQuotes (value : string) : string :=
  match value with
  | EmptyString => EmptyString
  | String c r =>
      if Ascii.eqb c squote then "'\''" +:+ escapeQuotes r
      else String c (escapeQuotes r)
  end.

Definition shellQuote (value : string) : string :=
  "'" +:+ escapeQuotes value +:+ "'".

Definition resolvePromptValue (prompt : string) (promptExpression : option string)
  : string :=
  match promptExpression with
  | Some (String c e) => String c e
  | _ => shellQuote prompt
  end.

Definition appendOptionalArg (args flag : string) (value : option string) : string :=
  match value with
  | Some (String c v) =>
      if negb (Js.truthy (Some flag)) then args
      else Js.trim (args +:+ " " +:+ flag +:+ " " +:+ shellQuote (String c v))
  | _ => args
  end.

Record BuildOptions := {
  opt_threadId : option string;
  opt_promptExpression : option string;
  opt_model : option string;
  opt_thinking : option string;
}.

Definition noOptions : BuildOptions :=
  {| opt_threadId := None; opt_promptExpression := None;
     opt_model := None; opt_thinking := None |}.

Definition buildAgentCommand (prompt : string) (options : BuildOptions) : string :=
  let promptValue := resolvePromptValue prompt (opt_promptExpression options) in
  let args := BASE_ARGS in
  let args := appendOptionalArg args MODEL_ARG (opt_model options) in
  let args := appendOptionalArg args THINKING_ARG (opt_thinking options) in
  match opt_threadId options with
  | Some (String c t) =>
      Js.trim (CODEX_CMD +:+ " exec resume " +:+ shellQuote (String c t) +:+ " "
               +:+ args +:+ " " +:+ promptValue)
  | _ => Js.trim (CODEX_CMD +:+ " exec " +:+ args +:+ " " +:+ promptValue)
  end.


(** ** Word splitting of a POSIX shell

    The yardstick of the quoting property: the quoting rules of the shell
    command language (single quotes, double quotes, backslash) and the
    separation of words at blanks.  A command line that needs more than
    quoting to be split (an operator, an expansion, a pattern, a comment, an
    assignment, a newline) is outside this fragment and yields [None], as
    does an unterminated quote. *)

Module Posix.

Inductive mode := Unquoted | InSingle | InDouble.

Definition dquote : ascii := "034"%char.
Definition backslash : ascii := "\"%char.
Definition newline : ascii := "010"%char.

Definition is_blank (c : ascii) : bool :=
  Ascii.eqb c " " || Ascii.eqb c "009".

(** Characters that, unquoted, start an operator, an expansion, a pattern,
    a comment or an assignment. *)
Definition is_special (c : ascii) : bool :=
  Js.includes (String c EmptyString) "|&;<>()$`*?[#~=%{}!"
  || Ascii.eqb c newline.

(** Characters that keep their special meaning after a backslash inside
    double quotes. *)
Definition dq_escapable (c : ascii) : bool :=
  Ascii.eqb c "$" || Ascii.eqb c "`" || Ascii.eqb c dquote || Ascii.eqb c backslash.

Definition push (cur : option string) (c : ascii) : option string :=
  match cur with
  | Some w => Some (w +:+ String c EmptyString)
  | None => Some (String c EmptyString)
  end.

Definition enter (cur : option string) : option string :=
  match cur with
  | Some w => Some w
  | None => Some EmptyString
  end.

Definition flush (cur : option string) (ws : list string) : list string :=
  match cur with
  | Some w => w :: ws
  | None => ws
  end.

Fixpoint words (m : mode) (cur : option string) (s : string)
  : option (list string) :=
  match s with
  | EmptyString =>
      match m with
      | Unquoted => Some (flush cur [])
      | _ => None
      end
  | String c r =>
      match m with
      | InSingle =>
          if Ascii.eqb c squote then words Unquoted cur r
          else words InSingle (push cur c) r
      | InDouble =>
          if Ascii.eqb c dquote then words Unquoted cur r
          else if Ascii.eqb c backslash then
            match r with
            | EmptyString => None
            | String d r' =>
                if dq_escapable d then words InDouble (push cur d) r'
                else if Ascii.eqb d newline then words InDouble cur r'
                else words InDouble (push cur c) r
            end
          else if Ascii.eqb c "$" || Ascii.eqb c "`" then None
          else words InDouble (push cur c) r
      | Unquoted =>
          if is_blank c then
            match words Unquoted None r with
            | Some ws => Some (flush cur ws)
            | None => None
            end
          else if Ascii.eqb c squote then words InSingle (enter cur) r
          else if Ascii.eqb c dquote then words InDouble (enter cur) r
          else if Ascii.eqb c backslash then
            match r with
            | EmptyString => None
            | String d r' =>
                if Ascii.eqb d newline then words Unquoted cur r'
                else words Unquoted (push cur d) r'
            end
          else if is_special c then None
          else words Unquoted (push cur c) r
      end
  end.

(** The words of a command line. *)
Definition split (command : string) : option (list string) :=
  words Unquoted None command.

End Posix.

(** ** The thread store (src/thread-store.js)

    [threads] is a JavaScript [Map] from thread keys to session ids; the
    functions mutate it, so the embedding returns the map they leave. *)

(** [String(chatId)] for an integer chat id. *)
Definition String_of (chatId : Z) : string := pretty chatId.

Definition buildThreadKey (chatId : Z) (agentId : string) : string :=
  String_of chatId +:+ ":" +:+ agentId.

Definition getLegacyThreadKey (chatId : Z) : string := String_of chatId.

Record Resolved := {
  threadKey : string;
  threadId : option string;
  migrated : bool;
}.

Definition resolveThreadId (threads : gmap string string) (chatId : Z)
    (agentId : string) : Resolved * gmap string string :=
  let threadKey := buildThreadKey chatId agentId in
  let direct := threads !! threadKey in
  if Js.truthy direct then
    ({| threadKey := threadKey; threadId := direct; migrated := false |}, threads)
  else
    let legacyKey := getLegacyThreadKey chatId in
    let legacy := threads !! legacyKey in
    match legacy with
    | Some (String c v) =>
        ({| threadKey := threadKey; threadId := legacy; migrated := true |},
         delete legacyKey (<[threadKey := String c v]> threads))
    | _ =>
        ({| threadKey := threadKey; threadId := None; migrated := false |}, threads)
    end.

(** [Map.prototype.delete] returns whether the key was present. *)
Definition clearThreadForAgent (threads : gmap string string) (chatId : Z)
    (agentId : string) : bool * gmap string string :=
  let threadKey := buildThreadKey chatId agentId in
  let legacyKey := getLegacyThreadKey chatId in
  let removed := bool_decide (is_Some (threads !! threadKey)) in
  let threads1 := delete threadKey threads in
  let removedLegacy := bool_decide (is_Some (threads1 !! legacyKey)) in
  (removed || removedLegacy, delete legacyKey threads1).

(** ** Shapes used to state the properties of the command builder *)

(** An unquoted word without blanks, quotes, backslashes or special
    characters. *)
Definition plain_char (c : ascii) : bool :=
  negb (Posix.is_blank c || Ascii.eqb c squote || Ascii.eqb c Posix.dquote
        || Ascii.eqb c Posix.backslash || Posix.is_special c).

Fixpoint plain (w : string) : bool :=
  match w with
  | EmptyString => true
  | String c r => plain_char c && plain r
  end.

(** The text an optional argument contributes to a command line. *)
Definition flag_part (flag : string) (value : option string) : string :=
  match value with
  | Some (String c v) => " " +:+ flag +:+ " " +:+ shellQuote (String c v)
  | _ => ""
  end.

Definition flag_words (flag : string) (value : option string) : list string :=
  match value with
  | Some (String c v) => [flag; String c v]
  | _ => []
  end.

Definition starts_nonspace (s : string) : bool :=
  match s with
  | String a _ => negb (Js.is_space a)
  | EmptyString => false
  end.

(** [rest] continues a command line after a word and splits into [ws]. *)
Definition continues (rest : string) (ws : list string) : Prop :=
  forall w : string,
    Posix.words Posix.Unquoted (Some w) rest = Some (w :: ws).

(** ** JSON values and [JSON.parse]

    Objects keep their members in source order; a later member with the
    same key overrides an earlier one, as [JSON.parse] has it.  A number is
    kept as its decimal literal [mantissa * 10 ^ exponent]. *)

#[local] Set Warnings "-register-all".

Inductive json :=
| JNull
| JBool (b : bool)
| JNumber (mantissa exponent : Z)
| JString (s : string)
| JArray (items : list json)
| JObject (members : list (string * json)).

Module Json.

(** Property access [v.key]: the last member of that key of an object,
    [undefined] otherwise (no key read by the adapter is a property of a
    string, number, boolean or array). *)
Fixpoint lookup_member (key : string) (members : list (string * json))
  : option json :=
  match members with
  | [] => None
  | (k, v) :: rest =>
      match lookup_member key rest with
      | Some later => Some later
      | None => if String.eqb k key then Some v else None
      end
  end.

Definition get (key : string) (v : json) : option json :=
  match v with
  | JObject members => lookup_member key members
  | _ => None
  end.

(** Truthiness of a parsed value; [undefined] is falsy.  (A literal too
    small for a double, which JavaScript reads as zero, is outside the
    embedding.) *)
Definition truthy (v : option json) : bool :=
  match v with
  | None | Some JNull | Some (JBool false) | Some (JString EmptyString) => false
  | Some (JNumber m _) => negb (m =? 0)
  | Some _ => true
  end.

(** [v === s] for a string [s]. *)
Definition is_string (s : string) (v : option json) : bool :=
  match v with
  | Some (JString t) => String.eqb t s
  | _ => false
  end.

(** [String(v).includes('message')].  The string of a number or a boolean
    has none of the letters of the needle, the string of an object is
    [[object Object]], and the string of an array joins the strings of its
    items with commas (the empty string for [null]), so the needle occurs in
    it exactly when it occurs in the string of an item. *)
Fixpoint String_includes_message (v : json) : bool :=
  match v with
  | JString s => Js.includes "message" s
  | JArray items => existsb String_includes_message items
  | _ => false
  end.

(** *** A reference parser for the JSON grammar (RFC 8259) *)

Definition is_ws (c : ascii) : bool :=
  Ascii.eqb c " " || Ascii.eqb c "009" || Ascii.eqb c "010" || Ascii.eqb c "013".

Fixpoint skip_ws (s : string) : string :=
  match s with
  | String c r => if is_ws c then skip_ws r else s
  | EmptyString => EmptyString
  end.

Definition digit_of (c : ascii) : option Z :=
  let n := Z.of_nat (nat_of_ascii c) in
  if (48 <=? n) && (n <=? 57) then Some (n - 48) else None.

Definition hex_of (c : ascii) : option Z :=
  let n := Z.of_nat (nat_of_ascii c) in
  if (48 <=? n) && (n <=? 57) then Some (n - 48)
  else if (65 <=? n) && (n <=? 70) then Some (n - 55)
  else if (97 <=? n) && (n <=? 102) then Some (n - 87)
  else None.

(** The digits at the head of [s]: their value after [acc], their number,
    and the rest. *)
Fixpoint digits (acc : Z) (count : nat) (s : string) : Z * nat * string :=
  match s with
  | String c r =>
      match digit_of c with
      | Some d => digits (10 * acc + d) (S count) r
      | None => (acc, count, s)
      end
  | EmptyString => (acc, count, s)
  end.

(** The characters of a string literal after its opening quote, up to the
    closing quote.  An escape [\uXXXX] above U+00FF is outside the
    embedding. *)
Fixpoint string_body (s : string) : option (string * string) :=
  match s with
  | EmptyString => None
  | String c r =>
      if Ascii.eqb c Posix.dquote then Some (EmptyString, r)
      else if Ascii.eqb c Posix.backslash then
        match r with
        | String e r1 =>
            let continue (ch : ascii) (rest : option (string * string)) :=
              match rest with
              | Some (body, after) => Some (String ch body, after)
              | None => None
              end in
            if Ascii.eqb e Posix.dquote then continue Posix.dquote (string_body r1)
            else if Ascii.eqb e Posix.backslash then continue Posix.backslash (string_body r1)
            else if Ascii.eqb e "/" then continue "/"%char (string_body r1)
            else if Ascii.eqb e "b" then continue "008"%char (string_body r1)
            else if Ascii.eqb e "f" then continue "012"%char (string_body r1)
            else if Ascii.eqb e "n" then continue "010"%char (string_body r1)
            else if Ascii.eqb e "r" then continue "013"%char (string_body r1)
            else if Ascii.eqb e "t" then continue "009"%char (string_body r1)
            else if Ascii.eqb e "u" then
              match r1 with
              | String h1 (String h2 (String h3 (String h4 r2))) =>
                  match hex_of h1, hex_of h2, hex_of h3, hex_of h4 with
                  | Some a, Some b, Some c', Some d =>
                      let code := ((a * 16 + b) * 16 + c') * 16 + d in
                      if code <? 256
                      then continue (ascii_of_nat (Z.to_nat code)) (string_body r2)
                      else None
                  | _, _, _, _ => None
                  end
              | _ => None
              end
            else None
        | EmptyString => None
        end
      else if (nat_of_ascii c <? 32)%nat then None
      else
        match string_body r with
        | Some (body, after) => Some (String c body, after)
        | None => None
        end
  end.

(** A number literal at the head of [s]. *)
Definition number (s : string) : option (json * string) :=
  let '(negative, s1) :=
    match s with
    | String "-" r => (true, r)
    | _ => (false, s)
    end in
  let '(int, n_int, s2) := digits 0 0 s1 in
  let leading_zero :=
    match s1 with
    | String "0" _ => (1 <? n_int)%nat
    | _ => false
    end in
  if (n_int =? 0)%nat || leading_zero then None
  else
    let frac :=
      match s2 with
      | String "." r =>
          let '(m, n_frac, s3) := digits int 0 r in
          if (n_frac =? 0)%nat then None else Some (m, Z.of_nat n_frac, s3)
      | _ => Some (int, 0, s2)
      end in
    match frac with
    | None => None
    | Some (m, scale, s3) =>
        let signed := if negative then - m else m in
        match s3 with
        | String e r =>
            if Ascii.eqb e "e" || Ascii.eqb e "E" then
              let '(neg_exp, r1) :=
                match r with
                | String "-" r' => (true, r')
                | String "+" r' => (false, r')
                | _ => (false, r)
                end in
              let '(ex, n_ex, s4) := digits 0 0 r1 in
              if (n_ex =? 0)%nat then None
              else Some (JNumber signed ((if neg_exp then - ex else ex) - scale), s4)
            else Some (JNumber signed (- scale), s3)
        | EmptyString => Some (JNumber signed (- scale), s3)
        end
    end.

Definition literal (word : string) (v : json) (s : string)
  : option (json * string) :=
  if String.prefix word s
  then Some (v, String.substring (String.length word)
                  (String.length s - String.length word) s)
  else None.

Fixpoint value (fuel : nat) (s : string) : option (json * string) :=
  match fuel with
  | O => None
  | S fuel' =>
      match skip_ws s with
      | EmptyString => None
      | String c r =>
          if Ascii.eqb c "{" then
            match skip_ws r with
            | String "}" r' => Some (JObject [], r')
            | r1 => members fuel' r1 []
            end
          else if Ascii.eqb c "[" then
            match skip_ws r with
            | String "]" r' => Some (JArray [], r')
            | r1 => elements fuel' r1 []
            end
          else if Ascii.eqb c Posix.dquote then
            match string_body r with
            | Some (body, after) => Some (JString body, after)
            | None => None
            end
          else if Ascii.eqb c "t" then literal "true" (JBool true) (String c r)
          else if Ascii.eqb c "f" then literal "false" (JBool false) (String c r)
          else if Ascii.eqb c "n" then literal "null" JNull (String c r)
          else number (String c r)
      end
  end

with elements (fuel : nat) (s : string) (seen : list json)
  : option (json * string) :=
  match fuel with
  | O => None
  | S fuel' =>
      match value fuel' s with
      | Some (v, r) =>
          match skip_ws r with
          | String "," r' => elements fuel' r' (seen ++ [v])
          | String "]" r' => Some (JArray (seen ++ [v]), r')
          | _ => None
          end
      | None => None
      end
  end

with members (fuel : nat) (s : string) (seen : list (string * json))
  : option (json * string) :=
  match fuel with
  | O => None
  | S fuel' =>
      match skip_ws s with
      | String c r =>
          if Ascii.eqb c Posix.dquote then
            match string_body r with
            | Some (key, after) =>
                match skip_ws after with
                | String ":" r1 =>
                    match value fuel' r1 with
                    | Some (v, r2) =>
                        match skip_ws r2 with
                        | String "," r' => members fuel' r' (seen ++ [(key, v)])
                        | String "}" r' => Some (JObject (seen ++ [(key, v)]), r')
                        | _ => None
                        end
                    | None => None
                    end
                | _ => None
                end
            | None => None
            end
          else None
      | EmptyString => None
      end
  end.

(** [JSON.parse(text)]; [None] stands for the [SyntaxError] it throws. *)
Definition parse (text : string) : option json :=
  match value (2 * String.length text + 2) text with
  | Some (v, rest) =>
      match skip_ws rest with
      | EmptyString => Some v
      | _ => None
      end
  | None => None
  end.

(** Writes a JSON text with [`] for the double quote. *)
Fixpoint text (s : string) : string :=
  match s with
  | EmptyString => EmptyString
  | String c r => String (if Ascii.eqb c "`" then Posix.dquote else c) (text r)
  end.

End Json.

(** ** The codex adapter: output parser (src/agent.js)

    [JSON.parse] is a parameter of the parser, [parse]; the properties hold
    for every such function, and are evaluated with [Json.parse]. *)

Definition LF : string := String "010" EmptyString.
Definition CR : ascii := "013"%char.

(** [output.split(/\r?\n/)] *)
Fixpoint split_lines (output : string) : list string :=
  match output with
  | EmptyString => [EmptyString]
  | String c r =>
      if Ascii.eqb c "010" then EmptyString :: split_lines r
      else
        match r with
        | String d r' =>
            if Ascii.eqb c CR && Ascii.eqb d "010"
            then EmptyString :: split_lines r'
            else
              match split_lines r with
              | line :: lines => String c line :: lines
              | [] => [String c EmptyString]
              end
        | EmptyString => [String c EmptyString]
        end
  end.

Record ParsedOutput := {
  out_text : string;
  out_threadId : option json;
  out_sawJson : bool;
}.

(** The variables of the loop of [parseCodexJsonOutput]. *)
Record LoopState := {
  buffer : string;
  loop_threadId : option json;
  messages : list string;
  sawJson : bool;
}.

Definition loop_init : LoopState :=
  {| buffer := ""; loop_threadId := None; messages := []; sawJson := false |}.

(** The body of the loop once [JSON.parse(buffer)] has returned [payload]. *)
Definition consume_payload (st : LoopState) (payload : json) : LoopState :=
  let st := {| buffer := ""; loop_threadId := loop_threadId st;
               messages := messages st; sawJson := true |} in
  if Json.is_string "thread.started" (Json.get "type" payload)
     && Json.truthy (Json.get "thread_id" payload)
  then {| buffer := buffer st; loop_threadId := Json.get "thread_id" payload;
          messages := messages st; sawJson := sawJson st |}
  else
    let item := Json.get "item" payload in
    if Json.is_string "item.completed" (Json.get "type" payload)
       && Json.truthy item
    then
      match item ≫= Json.get "text" with
      | Some (JString text) =>
          let itemType := item ≫= Json.get "type" in
          if Json.truthy itemType
             && from_option Json.String_includes_message false itemType
          then {| buffer := buffer st; loop_threadId := loop_threadId st;
                  messages := messages st ++ [text]; sawJson := sawJson st |}
          else st
      | _ => st
      end
    else st.

(** One iteration of the loop of [parseCodexJsonOutput]. *)
Definition consume_line (parse : string -> option json)
    (st : LoopState) (line : string) : LoopState :=
  let attempt (buffer' : string) :=
    match parse buffer' with
    | None => {| buffer := buffer'; loop_threadId := loop_threadId st;
                 messages := messages st; sawJson := sawJson st |}
    | Some payload => consume_payload st payload
    end in
  match buffer st with
  | EmptyString =>
      if negb (Js.startsWith "{" line) then st else attempt line
  | String _ _ => attempt (buffer st +:+ line)
  end.

Definition parseCodexJsonOutput (parse : string -> option json)
    (output : string) : ParsedOutput :=
  let lines := split_lines output in
  let st := fold_left (consume_line parse) lines loop_init in
  let text := Js.trim (Js.join LF (messages st)) in
  {| out_text := text; out_threadId := loop_threadId st;
     out_sawJson := sawJson st |}.

Definition parseAgentOutput (parse : string -> option json)
    (output : string) : ParsedOutput :=
  parseCodexJsonOutput parse output.

(** A record of a completed message with the text [text]: what the parser
    reads of it.  Other members, a [channel] among them, are free. *)
Definition message_record (payload : json) (text : string) : Prop :=
  Json.get "type" payload = Some (JString "item.completed")
  /\ exists item itemType,
       Json.get "item" payload = Some (JObject item)
       /\ Json.lookup_member "type" item = Some (JString itemType)
       /\ Js.includes "message" itemType = true
       /\ Json.lookup_member "text" item = Some (JString text).

(** A line of output that holds one record. *)
Definition record_line (parse : string -> option json)
    (line : string) (payload : json) : Prop :=
  Js.startsWith "{" line = true
  /\ Js.includes LF line = false
  /\ Js.includes (String CR EmptyString) line = false
  /\ parse line = Some payload.

(** Two outputs of the adapter's test suite: two messages without channel
    markers, and a message on the final channel followed by a commentary. *)
Definition two_messages : list string :=
  [ Json.text "{`type`:`item.completed`,`item`:{`type`:`message`,`text`:`paso intermedio`}}";
    Json.text "{`type`:`item.completed`,`item`:{`type`:`message`,`text`:`respuesta final`}}" ].

Definition final_then_commentary : list string :=
  [ Json.text "{`type`:`item.completed`,`item`:{`type`:`message`,`channel`:`final`,`text`:`hecho: resultado final`}}";
    Json.text "{`type`:`item.completed`,`item`:{`type`:`message`,`channel`:`commentary`,`text`:`voy a hacer X`}}" ].

(** ** The agent runner (src/services/agent-runner.js)

    [createAgentRunner] closes [runAgentForChat] over its options; the
    embedding passes them as a record.  The maps [threads] and
    [threadTurns] are shared and mutated in place, so they are the state of
    the runner, together with a trace of what the turn did to the outside
    (the calls of [execLocal], [buildPrompt] and [persistThreads], and the
    console).  A collaborator that may throw or reject returns a [result];
    a call keeps the state it reached when it throws. *)

(** *** [Buffer.from(text, 'utf8').toString('base64')] *)

Module Base64.

Definition utf8 (s : string) : list nat :=
  flat_map (fun c : ascii =>
              let n := nat_of_ascii c in
              if (n <? 128)%nat then [n]
              else [192 + n / 64; 128 + n mod 64]%nat)
           (list_ascii_of_string s).

Definition alphabet : string :=
  "ABCDEFGHIJKLMNOPQRSTUVWXYZabcdefghijklmnopqrstuvwxyz0123456789+/".

Definition digit (n : nat) : ascii :=
  match String.get n alphabet with
  | Some c => c
  | None => "="%char
  end.

Fixpoint encode (bytes : list nat) : string :=
  match bytes with
  | [] => EmptyString
  | [a] =>
      String (digit (a / 4)) (String (digit (a mod 4 * 16)) "==")
  | [a; b] =>
      String (digit (a / 4))
        (String (digit (a mod 4 * 16 + b / 16))
           (String (digit (b mod 16 * 4)) "="))
  | a :: b :: c :: rest =>
      String (digit (a / 4))
        (String (digit (a mod 4 * 16 + b / 16))
           (String (digit (b mod 16 * 4 + c / 64))
              (String (digit (c mod 64)) (encode rest))))
  end%nat.

Definition of_string (s : string) : string := encode (utf8 s).

End Base64.

Module Runner.

(** *** Values of the runner *)

(** What [execLocal] and the other collaborators throw: an error that may
    carry the partial [stdout] of the process. *)
Record Error := {
  err_message : string;
  err_stdout : option string;
}.

Inductive result (A : Type) :=
| Ok (a : A)
| Throw (e : Error).
Arguments Ok {A} a.
Arguments Throw {A} e.

Record Parsed := {
  parsed_text : string;
  parsed_threadId : option string;
  parsed_sawJson : bool;
}.

Record CommandRequest := {
  req_prompt : string;
  req_promptExpression : option string;
  req_threadId : option string;
  req_thinking : option string;
  req_model : option string;
}.

(** An agent of the registry.  An optional capability is [Some] when the
    agent has the function; [listSessionsCommand] takes no argument, so the
    capability holds what the call gives. *)
Record Agent := {
  agent_id : string;
  needsPty : bool;
  mergeStderr : bool;
  buildCommand : CommandRequest -> string;
  parseOutput : string -> Parsed;
  listSessionsCommand : option (result string);
  parseSessionList : option (string -> result (option string));
}.

Record RetrievalQuery := {
  rq_query : string;
  rq_chatId : Z;
  rq_topicId : option Z;
  rq_agentId : string;
  rq_limit : Z;
}.

Record RunOptions := {
  ro_topicId : option Z;
  ro_agentId : option string;
  ro_imagePaths : option (list string);
  ro_scriptContext : option string;
  ro_documentPaths : option (list string);
}.

(** The options of [createAgentRunner].  [execLocal] is given the number of
    calls made before it, so that two calls of a turn may differ in what
    they meet. *)
Record RunnerOptions := {
  agentMaxBuffer : Z;
  agentTimeoutMs : Z;
  buildBootstrapContext : string -> result string;
  buildMemoryRetrievalContext : RetrievalQuery -> result string;
  buildPrompt : string -> list string -> string -> option string ->
                list string -> string -> bool -> string;
  documentDir : string;
  execLocal : nat -> string -> list string -> Z -> Z -> result string;
  fileInstructionsEvery : nat;
  getAgent : string -> result Agent;
  getGlobalModels : string -> option string;
  getGlobalThinking : option string;
  resolveThreadId : gmap string string -> Z -> option Z -> string ->
                    Resolved * gmap string string;
  imageDir : string;
  memoryRetrievalLimit : Z;
  persistThreads : result unit;
  prefixTextWithTimestamp : string -> string -> string;
  resolveEffectiveAgentId : Z -> option Z -> option string -> string;
  shellQuote : string -> string;
  wrapCommandWithPty : string -> string;
  defaultTimeZone : string;
}.

Inductive Event :=
| EvExec (shell : string) (argv : list string)
| EvBuildPrompt (prompt : string) (includeFileInstructions : bool)
| EvPersistThreads
| EvInfo (message : string)
| EvWarn (message : string).

Record RunnerState := {
  threads : gmap string string;
  threadTurns : gmap string nat;
  trace : list Event;
}.

(** *** The monad of the runner: state that survives a throw *)

Definition M (A : Type) : Type := RunnerState -> result A * RunnerState.

Definition ret {A} (a : A) : M A := fun st => (Ok a, st).

Definition throw {A} (e : Error) : M A := fun st => (Throw e, st).

Definition bind {A B} (m : M A) (k : A -> M B) : M B :=
  fun st =>
    match m st with
    | (Ok a, st') => k a st'
    | (Throw e, st') => (Throw e, st')
    end.

#[global] Instance M_ret : MRet M := @ret.
#[global] Instance M_bind : MBind M := fun A B k m => bind m k.

(** [try { body } catch (err) { handler(err) }] *)
Definition try_catch {A} (body : M A) (handler : Error -> M A) : M A :=
  fun st =>
    match body st with
    | (Ok a, st') => (Ok a, st')
    | (Throw e, st') => handler e st'
    end.

(** [try { body } finally { final }], for a [final] that does not throw. *)
Definition finally {A} (body : M A) (final : RunnerState -> RunnerState) : M A :=
  fun st => let '(r, st') := body st in (r, final st').

Definition lift {A} (r : result A) : M A := fun st => (r, st).

Definition emit (e : Event) (st : RunnerState) : RunnerState :=
  {| threads := threads st; threadTurns := threadTurns st;
     trace := trace st ++ [e] |}.

Definition log (e : Event) : M unit := fun st => (Ok tt, emit e st).

Definition when (b : bool) (m : M unit) : M unit := if b then m else ret tt.

Definition is_exec (e : Event) : bool :=
  match e with
  | EvExec _ _ => true
  | _ => false
  end.

(** The number of calls of [execLocal] so far. *)
Definition exec_count (st : RunnerState) : nat :=
  length (List.filter is_exec (trace st)).

(** [await execLocal('bash', ['-lc', command], { timeout, maxBuffer })] *)
Definition exec (o : RunnerOptions) (command : string) : M string :=
  fun st =>
    let argv := ["-lc"; command] in
    (execLocal o (exec_count st) "bash" argv (agentTimeoutMs o) (agentMaxBuffer o),
     emit (EvExec "bash" argv) st).

(** [persistThreads().catch((err) => console.warn(message, err))] *)
Definition persist (o : RunnerOptions) (message : string) : M unit :=
  log EvPersistThreads ;;
  match persistThreads o with
  | Ok _ => mret tt
  | Throw _ => log (EvWarn message)
  end.

(** [needsPty] and [mergeStderr] applied to a command. *)
Definition decorate (o : RunnerOptions) (agent : Agent) (command : string)
  : string :=
  let commandToRun := command in
  let commandToRun :=
    if needsPty agent then wrapCommandWithPty o commandToRun else commandToRun in
  if mergeStderr agent then commandToRun +:+ " 2>&1" else commandToRun.

(** [turnCount % fileInstructionsEvery === 0]; the remainder by zero is
    [NaN]. *)
Definition is_multiple (turnCount every : nat) : bool :=
  match every with
  | O => false
  | S _ => (turnCount mod every =? 0)%nat
  end.

(** What the first part of a turn hands to the second. *)
Record Prepared := {
  prep_agent : Agent;
  prep_threadKey : string;
  prep_commandToRun : string;
}.

(** Lines 96 to 182 of [runAgentForChat]: from the resolution of the agent
    and of the thread to the command to run. *)
Definition prepareTurn (o : RunnerOptions) (chatId : Z) (prompt : string)
    (runOptions : RunOptions) : M Prepared :=
  let topicId := ro_topicId runOptions in
  let effectiveAgentId :=
    resolveEffectiveAgentId o chatId topicId (ro_agentId runOptions) in
  agent ← lift (getAgent o effectiveAgentId);
  resolved ← (fun st =>
    let '(r, threads') := resolveThreadId o (threads st) chatId topicId effectiveAgentId in
    (Ok r, {| threads := threads'; threadTurns := threadTurns st;
              trace := trace st |}));
  let threadKey := threadKey resolved in
  let threadId := threadId resolved in
  turnCount ← (fun st =>
    let turnCount := (default 0 (threadTurns st !! threadKey) + 1)%nat in
    (Ok turnCount, {| threads := threads st;
                      threadTurns := <[threadKey := turnCount]> (threadTurns st);
                      trace := trace st |}));
  let shouldIncludeFileInstructions :=
    negb (Js.truthy threadId) || is_multiple turnCount (fileInstructionsEvery o) in
  when (migrated resolved) (persist o "Failed to persist migrated threads:") ;;
  let promptWithContext := prompt in
  let promptWithContext :=
    if String.eqb (agent_id agent) "claude"
    then prefixTextWithTimestamp o promptWithContext (defaultTimeZone o)
    else promptWithContext in
  promptWithContext ←
    (if negb (Js.truthy threadId) then
       bootstrap ← lift (buildBootstrapContext o threadKey);
       mret (if Js.truthy (Some promptWithContext)
             then bootstrap +:+ LF +:+ LF +:+ promptWithContext
             else bootstrap)
     else mret promptWithContext);
  retrievalContext ← lift (buildMemoryRetrievalContext o
    {| rq_query := prompt; rq_chatId := chatId; rq_topicId := topicId;
       rq_agentId := effectiveAgentId; rq_limit := memoryRetrievalLimit o |});
  let promptWithContext :=
    if Js.truthy (Some retrievalContext) then
      if Js.truthy (Some promptWithContext)
      then promptWithContext +:+ LF +:+ LF +:+ retrievalContext
      else retrievalContext
    else promptWithContext in
  let thinking := getGlobalThinking o in
  log (EvBuildPrompt promptWithContext shouldIncludeFileInstructions) ;;
  let finalPrompt :=
    buildPrompt o promptWithContext (default [] (ro_imagePaths runOptions))
      (imageDir o) (ro_scriptContext runOptions)
      (default [] (ro_documentPaths runOptions)) (documentDir o)
      shouldIncludeFileInstructions in
  let promptBase64 := Base64.of_string finalPrompt in
  let promptExpression :=
    String Posix.dquote ("$PROMPT" +:+ String Posix.dquote "") in
  let agentCmd :=
    buildCommand agent
      {| req_prompt := finalPrompt; req_promptExpression := Some promptExpression;
         req_threadId := threadId; req_thinking := thinking;
         req_model := getGlobalModels o effectiveAgentId |} in
  let command :=
    Js.join " "
      [ "PROMPT_B64=" +:+ shellQuote o promptBase64 +:+ ";";
        "PROMPT=$(printf %s " +:+ String Posix.dquote "$PROMPT_B64"
          +:+ String Posix.dquote " | base64 --decode);";
        agentCmd ] in
  log (EvInfo "Agent start") ;;
  mret {| prep_agent := agent; prep_threadKey := threadKey;
          prep_commandToRun := decorate o agent command |}.

(** Lines 183 to 202: the run of the command.  The output is the stdout
    of the process, or the stdout carried by its error when that is not
    blank; the error is kept as [execError]. *)
Definition runCommand (o : RunnerOptions) (commandToRun : string)
  : M (string * option Error) :=
  finally
    (try_catch
       (output ← exec o commandToRun; mret (output, None))
       (fun err =>
          match err_stdout err with
          | Some stdout =>
              if Js.truthy (Some (Js.trim stdout))
              then mret (stdout, Some err)
              else throw err
          | None => throw err
          end))
    (emit (EvInfo "Agent finished")).

(** Lines 204 to 211: a failed process whose output gave neither a record
    nor a text fails the turn. *)
Definition checkOutput (parsed : Parsed) (execError : option Error) : M unit :=
  match execError with
  | Some err =>
      if negb (parsed_sawJson parsed)
         && negb (Js.truthy (Some (Js.trim (parsed_text parsed))))
      then throw err
      else log (EvWarn "Agent exited non-zero; returning stdout")
  | None => mret tt
  end.

(** Lines 212 to 235: the session id of the turn, recovered from the listing
    of the agent when the output announced none. *)
Definition recoverThreadId (o : RunnerOptions) (agent : Agent)
    (parsedThreadId : option string) : M (option string) :=
  match listSessionsCommand agent with
  | Some listSessions =>
      if negb (Js.truthy parsedThreadId) then
        try_catch
          (listCommand ← lift listSessions;
           listOutput ← exec o (decorate o agent listCommand);
           match parseSessionList agent with
           | Some parseList =>
               resolved ← lift (parseList listOutput);
               mret (if Js.truthy resolved then resolved else parsedThreadId)
           | None => mret parsedThreadId
           end)
          (fun err =>
             log (EvWarn "Failed to resolve agent session id:") ;;
             mret parsedThreadId)
      else mret parsedThreadId
  | None => mret parsedThreadId
  end.

(** Lines 236 to 241: the session id of the turn is stored under the thread
    key. *)
Definition storeThreadId (o : RunnerOptions) (threadKey : string)
    (parsedThreadId : option string) : M unit :=
  match parsedThreadId with
  | Some (String c id) =>
      (fun st => (Ok tt, {| threads := <[threadKey := String c id]> (threads st);
                            threadTurns := threadTurns st; trace := trace st |})) ;;
      persist o "Failed to persist threads:"
  | _ => mret tt
  end.

(** Lines 183 to 243 of [runAgentForChat]: the run of the command, the
    parsing of its output and the persistence of the session id. *)
Definition completeTurn (o : RunnerOptions) (p : Prepared) : M string :=
  let agent := prep_agent p in
  '(output, execError) ← runCommand o (prep_commandToRun p);
  let parsed := parseOutput agent output in
  checkOutput parsed execError ;;
  parsedThreadId ← recoverThreadId o agent (parsed_threadId parsed);
  storeThreadId o (prep_threadKey p) parsedThreadId ;;
  mret (Js.or_else (parsed_text parsed) output).

Definition runAgentForChat (o : RunnerOptions) (chatId : Z) (prompt : string)
    (runOptions : RunOptions) : M string :=
  prepared ← prepareTurn o chatId prompt runOptions;
  completeTurn o prepared.

End Runner.

(** *** Vocabulary of the properties of the runner *)

(** The state [st] after the events [events]. *)
Definition extend (st : Runner.RunnerState) (events : list Runner.Event)
  : Runner.RunnerState :=
  {| Runner.threads := Runner.threads st;
     Runner.threadTurns := Runner.threadTurns st;
     Runner.trace := Runner.trace st ++ events |}.

Definition is_buildPrompt (e : Runner.Event) : bool :=
  match e with
  | Runner.EvBuildPrompt _ _ => true
  | _ => false
  end.

(** The events a computation added to the trace of [st]. *)
Definition added (st st' : Runner.RunnerState) : list Runner.Event :=
  drop (length (Runner.trace st)) (Runner.trace st').

(** The agent of a turn. *)
Definition effectiveAgent (o : Runner.RunnerOptions) (chatId : Z)
    (runOptions : Runner.RunOptions) : string :=
  Runner.resolveEffectiveAgentId o chatId (Runner.ro_topicId runOptions)
    (Runner.ro_agentId runOptions).

(** What the resolution of the thread of a turn gives on the state [st]. *)
Definition resolution (o : Runner.RunnerOptions) (chatId : Z)
    (runOptions : Runner.RunOptions) (st : Runner.RunnerState)
  : Resolved * gmap string string :=
  Runner.resolveThreadId o (Runner.threads st) chatId
    (Runner.ro_topicId runOptions) (effectiveAgent o chatId runOptions).

(** The turn count of a turn on the state [st]. *)
Definition turnCountOf (o : Runner.RunnerOptions) (chatId : Z)
    (runOptions : Runner.RunOptions) (st : Runner.RunnerState) : nat :=
  (default 0 (Runner.threadTurns st
                !! threadKey (resolution o chatId runOptions st).1) + 1)%nat.

(** The bootstrap and the memory retrieval answer. *)
Definition contexts_available (o : Runner.RunnerOptions) : Prop :=
  (forall key, exists text, Runner.buildBootstrapContext o key = Runner.Ok text)
  /\ (forall query, exists text,
        Runner.buildMemoryRetrievalContext o query = Runner.Ok text).

(** The next call of [execLocal] meets [outcome], whatever the command. *)
Definition next_exec (o : Runner.RunnerOptions) (n : nat)
    (outcome : Runner.result string) : Prop :=
  forall argv timeout maxBuffer,
    Runner.execLocal o n "bash" argv timeout maxBuffer = outcome.

(** The stdout carried by the error of a failed process is usable: it is
    not blank, and the agent parsed a record of it or extracted a text
    that is not blank. *)
Definition usable (agent : Runner.Agent) (err : Runner.Error) : bool :=
  match Runner.err_stdout err with
  | Some stdout =>
      Js.truthy (Some (Js.trim stdout))
      && (Runner.parsed_sawJson (Runner.parseOutput agent stdout)
          || Js.truthy (Some (Js.trim
               (Runner.parsed_text (Runner.parseOutput agent stdout)))))
  | None => false
  end.

(** The reply of a turn whose process printed [output]. *)
Definition replyOf (agent : Runner.Agent) (output : string) : string :=
  Js.or_else (Runner.parsed_text (Runner.parseOutput agent output)) output.

(** ** A wiring of the runner

    The options with which the properties of the runner are evaluated: the
    codex adapter as the agent of the registry, the thread store for chats
    without topics, and the collaborators as the end-to-end test of the
    repository stubs them.  Two options stand for what the sources do not
    hold.  [resolveThreadId] is the thread store behind an adapter that hands
    it the agent id: the function of src/thread-store.js takes the agent id
    as its third parameter, where the runner passes the topic id
    ([with_threadStore] gives the function as it is).  [shellQuote] is the
    quoting of src/agent.js, in the place of that of src/services/process. *)

Module Wiring.

(** The thread store and the quoting of src/agent.js, under names that the
    options of the runner do not take. *)
Definition threadStore_resolveThreadId := resolveThreadId.
Definition agent_shellQuote := shellQuote.

Import Runner.

(** A session id is a string. *)
Definition sessionOf (v : option json) : option string :=
  match v with
  | Some (JString s) => Some s
  | _ => None
  end.

Definition codexAgent : Agent :=
  {| agent_id := "codex";
     needsPty := false;
     mergeStderr := false;
     buildCommand := fun request =>
       buildAgentCommand (req_prompt request)
         {| opt_threadId := req_threadId request;
            opt_promptExpression := req_promptExpression request;
            opt_model := req_model request;
            opt_thinking := req_thinking request |};
     parseOutput := fun output =>
       let parsed := parseAgentOutput Json.parse output in
       {| parsed_text := out_text parsed;
          parsed_threadId := sessionOf (out_threadId parsed);
          parsed_sawJson := out_sawJson parsed |};
     listSessionsCommand := None;
     parseSessionList := None |}.



Definition unknownAgent : Error :=
  {| err_message := "Unknown agent"; err_stdout := None |}.

Definition commandFailed (stdout : option string) : Error :=
  {| err_message := "Command failed"; err_stdout := stdout |}.

(** An [execLocal] whose successive calls meet the given outcomes. *)
Definition answering (outcomes : list (result string))
  : nat -> string -> list string -> Z -> Z -> result string :=
  fun n _ _ _ _ => nth n outcomes (Throw (commandFailed None)).

(** The options: the thread store keys a thread by chat and agent, so the
    topic plays no part in the resolution. *)
Definition options (agent : Agent)
    (execLocal : nat -> string -> list string -> Z -> Z -> result string)
  : RunnerOptions :=
  {| agentMaxBuffer := 1048576;
     agentTimeoutMs := 5000;
     buildBootstrapContext := fun key => Ok ("BOOTSTRAP(" +:+ key +:+ ")");
     buildMemoryRetrievalContext := fun _ => Ok "MEMORY_CONTEXT";
     buildPrompt := fun prompt _ _ _ _ _ includeFileInstructions =>
       if includeFileInstructions
       then prompt +:+ LF +:+ "FILE_INSTRUCTIONS" else prompt;
     documentDir := "/tmp/documents";
     Runner.execLocal := execLocal;
     fileInstructionsEvery := 3;
     getAgent := fun id =>
       if String.eqb id (agent_id agent) then Ok agent else Throw unknownAgent;
     getGlobalModels := fun _ => None;
     getGlobalThinking := None;
     resolveThreadId := fun threads chatId _ agentId =>
       threadStore_resolveThreadId threads chatId agentId;
     imageDir := "/tmp/images";
     memoryRetrievalLimit := 3;
     persistThreads := Ok tt;
     prefixTextWithTimestamp := fun text _ => text;
     resolveEffectiveAgentId := fun _ _ override =>
       default (agent_id agent) override;
     shellQuote := agent_shellQuote;
     wrapCommandWithPty := fun command => command;
     defaultTimeZone := "UTC" |}.

Definition noRunOptions : RunOptions :=
  {| ro_topicId := None; ro_agentId := None; ro_imagePaths := None;
     ro_scriptContext := None; ro_documentPaths := None |}.

Definition initial (threads : gmap string string) : RunnerState :=
  {| Runner.threads := threads; threadTurns := ∅; trace := [] |}.

(** Outputs of the agent: a thread and a message; a message alone. *)
Definition firstOutput : string :=
  Js.join LF
    [ Json.text "{`type`:`thread.started`,`thread_id`:`thread-1`}";
      Json.text "{`type`:`item.completed`,`item`:{`type`:`message`,`text`:`Primera respuesta`}}" ].

Definition secondOutput : string :=
  Json.text "{`type`:`item.completed`,`item`:{`type`:`message`,`text`:`Segunda respuesta`}}".

End Wiring.

(** ** Vocabulary of further properties *)

(** A string without a colon, as the decimal image of a chat id is one. *)
Definition no_colon (s : string) : bool := negb (Js.includes ":" s).

(** A line of output as the parser meets it: a line that holds the record
    [payload], or a line of noise, which does not start with a brace. *)
Definition stream_line (parse : string -> option json)
    (item : string * option json) : Prop :=
  match item.2 with
  | Some payload => record_line parse item.1 payload
  | None =>
      Js.startsWith "{" item.1 = false
      /\ Js.includes LF item.1 = false
      /\ Js.includes (String CR EmptyString) item.1 = false
  end.

(** What the adapter reads of a record: the start of a thread with its id,
    or a completed message with its text. *)
Inductive Record :=
| ThreadStarted (id : string)
| Message (text : string).

Definition describes (payload : json) (r : Record) : Prop :=
  match r with
  | ThreadStarted id =>
      Json.get "type" payload = Some (JString "thread.started")
      /\ Json.get "thread_id" payload = Some (JString id)
      /\ id <> EmptyString
  | Message text => message_record payload text
  end.

Definition thread_of (r : Record) : option string :=
  match r with
  | ThreadStarted id => Some id
  | Message _ => None
  end.

Definition text_of (r : Record) : option string :=
  match r with
  | ThreadStarted _ => None
  | Message text => Some text
  end.

(** The concatenations that the buffer of the parser goes through on the
    lines [lines], from the buffer [buffer]. *)
Fixpoint buffers (buffer : string) (lines : list string) : list string :=
  match lines with
  | [] => []
  | line :: rest => (buffer +:+ line) :: buffers (buffer +:+ line) rest
  end.

(** The last character of a string. *)
Fixpoint last_char (s : string) : option ascii :=
  match s with
  | EmptyString => None
  | String c EmptyString => Some c
  | String _ r => last_char r
  end.

Definition first_char (s : string) : option ascii :=
  match s with
  | EmptyString => None
  | String c _ => Some c
  end.

(** A string is trimmed when it is empty or neither begins nor ends with
    white space. *)
Definition trimmed (s : string) : Prop :=
  s = EmptyString
  \/ (exists c, first_char s = Some c /\ Js.is_space c = false)
     /\ (exists c, last_char s = Some c /\ Js.is_space c = false).

(** ** The one-shot run of the agent runner (src/services/agent-runner.js)

    [runAgentOneShot], lines 29 to 93.  [getGlobalAgent()] is the argument
    [globalAgent]; the prompt may be [undefined]. *)

Module OneShot.

Import Runner.

(** The request of a one-shot run: no thread, and the prompt through the
    expression. *)
Definition request (o : RunnerOptions) (promptText : string) : CommandRequest :=
  {| req_prompt := promptText;
     req_promptExpression :=
       Some (String Posix.dquote ("$PROMPT" +:+ String Posix.dquote ""));
     req_threadId := None;
     req_thinking := getGlobalThinking o;
     req_model := None |}.

(** Lines 33 to 38: [String(prompt || '')], with the time for claude. *)
Definition promptTextOf (o : RunnerOptions) (agent : Agent)
    (prompt : option string) : string :=
  let promptText := default "" prompt in
  if String.eqb (agent_id agent) "claude"
  then prefixTextWithTimestamp o promptText (defaultTimeZone o)
  else promptText.

(** Lines 39 to 60: the command to run. *)
Definition commandToRun (o : RunnerOptions) (agent : Agent)
    (prompt : option string) : string :=
  let promptText := promptTextOf o agent prompt in
  let promptBase64 := Base64.of_string promptText in
  let agentCmd := buildCommand agent (request o promptText) in
  let command :=
    Js.join " "
      [ "PROMPT_B64=" +:+ shellQuote o promptBase64 +:+ ";";
        "PROMPT=$(printf %s " +:+ String Posix.dquote "$PROMPT_B64"
          +:+ String Posix.dquote " | base64 --decode);";
        agentCmd ] in
  decorate o agent command.

(** Lines 64 to 81: the run of the command. *)
Definition runCommand (o : RunnerOptions) (command : string)
  : M (string * option Error) :=
  finally
    (try_catch
       (output ← exec o command; mret (output, None))
       (fun err =>
          match err_stdout err with
          | Some stdout =>
              if Js.truthy (Some (Js.trim stdout))
              then mret (stdout, Some err)
              else throw err
          | None => throw err
          end))
    (emit (EvInfo "Agent one-shot finished")).

Definition runAgentOneShot (o : RunnerOptions) (globalAgent : string)
    (prompt : option string) : M string :=
  agent ← lift (getAgent o globalAgent);
  log (EvInfo "Agent one-shot start") ;;
  '(output, execError) ← runCommand o (commandToRun o agent prompt);
  let parsed := parseOutput agent output in
  match execError with
  | Some err =>
      if negb (parsed_sawJson parsed)
         && negb (Js.truthy (Some (Js.trim (parsed_text parsed))))
      then throw err
      else log (EvWarn "Agent one-shot exited non-zero; returning stdout")
  | None => mret tt
  end ;;
  mret (Js.or_else (parsed_text parsed) output).

End OneShot.

(** ** The memory service (src/services/memory.js)

    The counter of memory events since the last curation lives in the
    application and is read and written through the options of the service;
    it is the state here, with the number of curations handed to
    [persistMemory], the events appended and the warnings logged. *)

Module Memory.

Record MemoryState := {
  eventsSinceCurate : nat;
  curationsScheduled : nat;
  appended : nat;
  warnings : nat;
}.

(** [maybeAutoCurateMemory], lines 282 to 300 *)
Definition maybeAutoCurateMemory (memoryCurateEvery : nat) (st : MemoryState)
  : MemoryState :=
  let nextCount := (eventsSinceCurate st + 1)%nat in
  if (nextCount <? memoryCurateEvery)%nat then
    {| eventsSinceCurate := nextCount;
       curationsScheduled := curationsScheduled st;
       appended := appended st; warnings := warnings st |}
  else
    {| eventsSinceCurate := 0;
       curationsScheduled := S (curationsScheduled st);
       appended := appended st; warnings := warnings st |}.

(** [captureMemoryEvent], lines 302 to 309; [appendOk] tells whether
    [appendMemoryEvent] fulfilled. *)
Definition captureMemoryEvent (memoryCurateEvery : nat) (st : MemoryState)
    (appendOk : bool) : MemoryState :=
  if appendOk then
    maybeAutoCurateMemory memoryCurateEvery
      {| eventsSinceCurate := eventsSinceCurate st;
         curationsScheduled := curationsScheduled st;
         appended := S (appended st); warnings := warnings st |}
  else
    {| eventsSinceCurate := eventsSinceCurate st;
       curationsScheduled := curationsScheduled st;
       appended := appended st; warnings := S (warnings st) |}.

End Memory.

(** *** Vocabulary of the further properties of the runner *)

(** The options [o] with another bootstrap. *)
Definition with_bootstrap (o : Runner.RunnerOptions)
    (bootstrap : string -> Runner.result string) : Runner.RunnerOptions :=
  {| Runner.agentMaxBuffer := Runner.agentMaxBuffer o;
     Runner.agentTimeoutMs := Runner.agentTimeoutMs o;
     Runner.buildBootstrapContext := bootstrap;
     Runner.buildMemoryRetrievalContext := Runner.buildMemoryRetrievalContext o;
     Runner.buildPrompt := Runner.buildPrompt o;
     Runner.documentDir := Runner.documentDir o;
     Runner.execLocal := Runner.execLocal o;
     Runner.fileInstructionsEvery := Runner.fileInstructionsEvery o;
     Runner.getAgent := Runner.getAgent o;
     Runner.getGlobalModels := Runner.getGlobalModels o;
     Runner.getGlobalThinking := Runner.getGlobalThinking o;
     Runner.resolveThreadId := Runner.resolveThreadId o;
     Runner.imageDir := Runner.imageDir o;
     Runner.memoryRetrievalLimit := Runner.memoryRetrievalLimit o;
     Runner.persistThreads := Runner.persistThreads o;
     Runner.prefixTextWithTimestamp := Runner.prefixTextWithTimestamp o;
     Runner.resolveEffectiveAgentId := Runner.resolveEffectiveAgentId o;
     Runner.shellQuote := Runner.shellQuote o;
     Runner.wrapCommandWithPty := Runner.wrapCommandWithPty o;
     Runner.defaultTimeZone := Runner.defaultTimeZone o |}.

(** The computation [m] only adds to the trace, and runs at most [n]
    processes. *)
Definition runs_at_most {A} (n : nat) (m : Runner.M A) : Prop :=
  forall st : Runner.RunnerState,
    exists events,
      Runner.trace (m st).2 = Runner.trace st ++ events
      /\ (length (List.filter Runner.is_exec events) <= n)%nat.

(** The command line that decodes the prompt and runs the command the agent
    builds of [request]. *)
Definition assembled (o : Runner.RunnerOptions) (agent : Runner.Agent)
    (request : Runner.CommandRequest) : string :=
  Runner.decorate o agent
    (Js.join " "
       [ "PROMPT_B64="
           +:+ Runner.shellQuote o (Base64.of_string (Runner.req_prompt request))
           +:+ ";";
         "PROMPT=$(printf %s " +:+ String Posix.dquote "$PROMPT_B64"
           +:+ String Posix.dquote " | base64 --decode);";
         Runner.buildCommand agent request ]).

(** The query of the memory retrieval of a turn. *)
Definition retrievalQuery (o : Runner.RunnerOptions) (chatId : Z)
    (prompt : string) (runOptions : Runner.RunOptions) : Runner.RetrievalQuery :=
  {| Runner.rq_query := prompt; Runner.rq_chatId := chatId;
     Runner.rq_topicId := Runner.ro_topicId runOptions;
     Runner.rq_agentId := effectiveAgent o chatId runOptions;
     Runner.rq_limit := Runner.memoryRetrievalLimit o |}.

(** An error of the bootstrap. *)
Definition soulUnreadable : Runner.Error :=
  {| Runner.err_message := "ENOENT: soul.md"; Runner.err_stdout := None |}.



(** ** The menus of the settings commands (src/commands/settings.js) *)

Module Settings.

(** [text.replace(/\s+/g, ' ')]: every run of white space becomes one
    space.  [in_run] tells that the character before was white space, whose
    run has given its space. *)
Fixpoint collapse_from (in_run : bool) (s : string) : string :=
  match s with
  | EmptyString => EmptyString
  | String c r =>
      if Js.is_space c then
        if in_run then collapse_from true r
        else String " " (collapse_from true r)
      else String c (collapse_from false r)
  end.

Definition collapse (s : string) : string := collapse_from false s.

(** [text.slice(0, end)]: a negative [end] counts from the end of the
    text. *)
Definition slice_to (to : Z) (text : string) : string :=
  let len := Z.of_nat (String.length text) in
  let to := if to <? 0 then Z.max (len + to) 0 else Z.min to len in
  String.substring 0 (Z.to_nat to) text.

(** [sanitizeButtonText], lines 55 to 59 *)
Definition sanitizeButtonText (value : string) (max : Z) : string :=
  let text := Js.trim (collapse value) in
  if Z.of_nat (String.length text) <=? max then text
  else slice_to (max - 3) text +:+ "...".

(** The candidate of the loop of [uniqueMenuLabel] for the number [i]. *)
Definition candidate (trimmed : string) (i : Z) : string :=
  sanitizeButtonText (trimmed +:+ " (" +:+ pretty i +:+ ")") 44.

(** The loop of [uniqueMenuLabel], lines 182 to 190: [while (true)] has no
    bound, so the embedding counts the iterations it may take; [None] is a
    loop that has not returned within [fuel] iterations. *)
Fixpoint uniqueMenuLabel_loop (fuel : nat) (trimmed : string)
    (usedLabels : gset string) (i : Z) : option (string * gset string) :=
  match fuel with
  | O => None
  | S fuel' =>
      if bool_decide (candidate trimmed i ∈ usedLabels)
      then uniqueMenuLabel_loop fuel' trimmed usedLabels (i + 1)
      else Some (candidate trimmed i, {[ candidate trimmed i ]} ∪ usedLabels)
  end.

(** [uniqueMenuLabel], lines 176 to 191; it returns the label and leaves
    the set of used labels with the label added. *)
Definition uniqueMenuLabel (fuel : nat) (base : string)
    (usedLabels : gset string) : option (string * gset string) :=
  let trimmed := sanitizeButtonText base 44 in
  if bool_decide (trimmed ∈ usedLabels)
  then uniqueMenuLabel_loop fuel trimmed usedLabels 2
  else Some (trimmed, {[ trimmed ]} ∪ usedLabels).

(** The labels of [buildProjectMenuEntries] and [buildSessionMenuEntries],
    lines 193 to 216: the entries get their labels in order through one set
    of used labels; [bases] are the base labels of the entries. *)
Fixpoint menuLabels_from (fuel : nat) (bases : list string)
    (used : gset string) : option (list string) :=
  match bases with
  | [] => Some []
  | base :: rest =>
      match uniqueMenuLabel fuel base used with
      | Some (label, used') =>
          match menuLabels_from fuel rest used' with
          | Some labels => Some (label :: labels)
          | None => None
          end
      | None => None
      end
  end.

Definition menuLabels (fuel : nat) (bases : list string) : option (list string) :=
  menuLabels_from fuel bases ∅.

(** [getPagedEntries], lines 230 to 242, for a list of entries, an integer
    page and a page size that is positive. *)
Record Paged (A : Type) := {
  pageEntries : list A;
  page : Z;
  totalPages : Z;
  totalItems : Z;
}.
Arguments pageEntries {A} _.
Arguments page {A} _.
Arguments totalPages {A} _.
Arguments totalItems {A} _.

(** [entries.slice(start, end)] for [0 <= start <= end] *)
Definition slice {A} (start stop : Z) (entries : list A) : list A :=
  take (Z.to_nat (stop - start)) (drop (Z.to_nat start) entries).

(** [Math.ceil(n / d)] for [0 <= n] and [0 < d] *)
Definition ceil_div (n d : Z) : Z := (n + d - 1) / d.

Definition getPagedEntries {A} (entries : list A) (page : Z) (pageSize : positive)
  : Paged A :=
  let safeEntries := entries in
  let totalPages :=
    Z.max 1 (ceil_div (Z.of_nat (length safeEntries)) (Z.pos pageSize)) in
  let safePage := Z.min (Z.max 0 page) (totalPages - 1) in
  let start := safePage * Z.pos pageSize in
  let stop := start + Z.pos pageSize in
  {| pageEntries := slice start stop safeEntries;
     page := safePage;
     totalPages := totalPages;
     totalItems := Z.of_nat (length safeEntries) |}.

End Settings.

(** *** Vocabulary of the properties of the menus *)

(** A text whose white space is single spaces: [after_space] tells that the
    character before was a space. *)
Fixpoint tidy_from (after_space : bool) (s : string) : bool :=
  match s with
  | EmptyString => true
  | String c r =>
      if Js.is_space c
      then Ascii.eqb c " " && negb after_space && tidy_from true r
      else tidy_from false r
  end.

Definition tidy (s : string) : bool := tidy_from false s.

(** Whether the last character of [s] is white space; [before] for the
    empty string. *)
Fixpoint ends_space (before : bool) (s : string) : bool :=
  match s with
  | EmptyString => before
  | String c r => ends_space (Js.is_space c) r
  end.

(** A text without white space. *)
Fixpoint no_space (s : string) : bool :=
  match s with
  | EmptyString => true
  | String c r => negb (Js.is_space c) && no_space r
  end.

(** The pages of a paged list. *)
Definition pages {A} (entries : list A) (pageSize : positive) : list (list A) :=
  map (fun p : nat =>
         Settings.pageEntries (Settings.getPagedEntries entries (Z.of_nat p) pageSize))
      (seq 0 (Z.to_nat (Settings.totalPages
                          (Settings.getPagedEntries entries 0 pageSize)))).

(** A name longer than a label. *)
Definition longName : string :=
  "un-proyecto-con-un-nombre-verdaderamente-largo-2026".

(** * Properties *)

(** ** Strings *)

Section StringFacts.

Lemma str_app_cons (c : ascii) (s t : string) : String c s +:+ t = String c (s +:+ t).
Proof. reflexivity. Qed.

Lemma str_app_nil_l (s : string) : "" +:+ s = s.
Proof. reflexivity. Qed.

Lemma str_app_nil_r (s : string) : s +:+ "" = s.
Proof. induction s as [|c s IH]; [reflexivity|]. rewrite str_app_cons. by f_equal. Qed.

Lemma str_app_assoc (s t u : string) : (s +:+ t) +:+ u = s +:+ (t +:+ u).
Proof.
  induction s as [|c s IH]; [reflexivity|].
  rewrite !str_app_cons. by f_equal.
Qed.

Lemma str_length_app (s t : string) :
  String.length (s +:+ t) = (String.length s + String.length t)%nat.
Proof.
  induction s as [|c s IH]; [reflexivity|].
  rewrite str_app_cons. simpl. by rewrite IH.
Qed.

Lemma trimStart_nonspace (s : string) :
  starts_nonspace s = true -> Js.trimStart s = s.
Proof.
  destruct s as [|a s]; [done|]. simpl. intros H.
  destruct (Js.is_space a); [done|reflexivity].
Qed.

Lemma trimEnd_snoc (s : string) (c : ascii) :
  Js.is_space c = false ->
  Js.trimEnd (s +:+ String c "") = s +:+ String c "".
Proof.
  intros Hc. induction s as [|a s IH].
  - rewrite str_app_nil_l. simpl. by rewrite Hc.
  - rewrite str_app_cons. simpl. rewrite IH.
    destruct s; reflexivity.
Qed.

Lemma starts_nonspace_app (s t : string) :
  starts_nonspace s = true -> starts_nonspace (s +:+ t) = true.
Proof. destruct s; [done|]. by rewrite str_app_cons. Qed.

Lemma trim_quoted (pre v : string) :
  starts_nonspace pre = true ->
  Js.trim (pre +:+ shellQuote v) = pre +:+ shellQuote v.
Proof.
  intros H. unfold Js.trim.
  rewrite trimStart_nonspace by by apply starts_nonspace_app.
  unfold shellQuote.
  rewrite <- !str_app_assoc. by apply trimEnd_snoc.
Qed.

End StringFacts.

(** ** The command builder *)

Section CommandBuilder.

Example shellQuote_escapes_single_quote :
  shellQuote "abc'def" = "'abc'\''def'".
Proof. reflexivity. Qed.

Example buildAgentCommand_resume :
  buildAgentCommand "hello"
    {| opt_threadId := Some "t-123"; opt_promptExpression := None;
       opt_model := None; opt_thinking := None |}
  = "codex exec resume 't-123' --json --skip-git-repo-check 'hello'".
Proof. reflexivity. Qed.

Example split_quotes_and_escapes :
  Posix.split "one\ two 'three'\''four' five"
  = Some ["one two"; "three'four"; "five"]
  /\ Posix.split (Json.text "one `two three` four")
     = Some ["one"; "two three"; "four"]
  /\ Posix.split "echo $HOME" = None
  /\ Posix.split "echo 'unterminated" = None.
Proof. repeat split; reflexivity. Qed.

Example split_quoted_prompt :
  Posix.split (buildAgentCommand (Json.text "it's a `test` \ ok") noOptions)
  = Some ["codex"; "exec"; "--json"; "--skip-git-repo-check";
          Json.text "it's a `test` \ ok"].
Proof. reflexivity. Qed.

Lemma appendOptionalArg_shape (args flag : string) (value : option string) :
  starts_nonspace args = true -> Js.truthy (Some flag) = true ->
  appendOptionalArg args flag value = args +:+ flag_part flag value.
Proof.
  intros Ha Hf. unfold appendOptionalArg, flag_part.
  destruct value as [[|c v]|]; rewrite ?str_app_nil_r; try reflexivity.
  rewrite Hf. simpl negb. cbv iota.
  rewrite <- !str_app_assoc. rewrite trim_quoted; [reflexivity|].
  rewrite !str_app_assoc. by apply starts_nonspace_app.
Qed.

(** The command line as the concatenation of its parts. *)
Lemma buildAgentCommand_shape (prompt : string) (options : BuildOptions) :
  buildAgentCommand prompt options
  = Js.trim ("codex exec" +:+ flag_part "resume" (opt_threadId options)
             +:+ " --json --skip-git-repo-check"
             +:+ flag_part "--model" (opt_model options)
             +:+ flag_part "--thinking" (opt_thinking options)
             +:+ " " +:+ resolvePromptValue prompt (opt_promptExpression options)).
Proof.
  unfold buildAgentCommand.
  rewrite (appendOptionalArg_shape BASE_ARGS MODEL_ARG) by reflexivity.
  rewrite appendOptionalArg_shape; [|by apply starts_nonspace_app|reflexivity].
  f_equal.
  destruct (opt_threadId options) as [[|c t]|]; unfold flag_part at 1;
    rewrite ?str_app_nil_l, ?str_app_assoc; reflexivity.
Qed.

Lemma words_quoted_body (v cur rest : string) :
  Posix.words Posix.InSingle (Some cur) (escapeQuotes v +:+ "'" +:+ rest)
  = Posix.words Posix.Unquoted (Some (cur +:+ v)) rest.
Proof.
  revert cur. induction v as [|a v IH]; intros cur.
  - simpl escapeQuotes. rewrite str_app_nil_l, str_app_nil_r. reflexivity.
  - simpl escapeQuotes. destruct (Ascii.eqb_spec a squote) as [->|Hne].
    + rewrite str_app_assoc. 
      change ("'\''" +:+ ?x) with (String squote (String Posix.backslash
               (String squote (String squote x)))).
      cbn [Posix.words]. 
      change (Ascii.eqb squote squote) with true. cbv iota.
      change (Posix.is_blank Posix.backslash) with false.
      change (Ascii.eqb Posix.backslash squote) with false.
      change (Ascii.eqb Posix.backslash Posix.dquote) with false.
      change (Ascii.eqb Posix.backslash Posix.backslash) with true.
      change (Ascii.eqb squote Posix.newline) with false.
      change (Posix.is_blank squote) with false. cbv iota.
      unfold Posix.push, Posix.enter.
      rewrite IH. by rewrite str_app_assoc.
    + rewrite str_app_cons. cbn [Posix.words].
      apply Ascii.eqb_neq in Hne. rewrite Hne.
      unfold Posix.push. rewrite IH. by rewrite str_app_assoc.
Qed.

Lemma words_quoted (v : string) (cur : option string) (rest : string) :
  Posix.words Posix.Unquoted cur (shellQuote v +:+ rest)
  = Posix.words Posix.Unquoted (Some (default "" cur +:+ v)) rest.
Proof.
  unfold shellQuote. rewrite !str_app_assoc.
  change ("'" +:+ ?x) with (String squote x) at 1.
  cbn [Posix.words].
  change (Posix.is_blank squote) with false.
  change (Ascii.eqb squote squote) with true. cbv iota.
  destruct cur as [w|]; unfold Posix.enter; simpl default;
    apply words_quoted_body.
Qed.

Lemma words_plain (w : string) (cur : option string) (rest : string) :
  plain w = true -> w <> "" ->
  Posix.words Posix.Unquoted cur (w +:+ rest)
  = Posix.words Posix.Unquoted (Some (default "" cur +:+ w)) rest.
Proof.
  revert cur. induction w as [|a w IH]; intros cur Hp Hne; [done|].
  simpl in Hp. apply andb_prop in Hp as [Ha Hw].
  unfold plain_char in Ha. apply negb_true_iff in Ha.
  apply orb_false_elim in Ha as [Ha H4]. apply orb_false_elim in Ha as [Ha H3].
  apply orb_false_elim in Ha as [Ha H2]. apply orb_false_elim in Ha as [H0 H1].
  rewrite str_app_cons. cbn [Posix.words].
  rewrite H0, H1, H2, H3, H4.
  destruct w as [|b w].
  - rewrite str_app_nil_l. destruct cur; reflexivity.
  - rewrite IH by done. f_equal. f_equal.
    destruct cur as [u|]; simpl; [by rewrite str_app_assoc|reflexivity].
Qed.

Lemma words_blank (cur : option string) (rest : string) :
  Posix.words Posix.Unquoted cur (" " +:+ rest)
  = Posix.flush cur <$> Posix.words Posix.Unquoted None rest.
Proof. reflexivity. Qed.

Lemma continues_prompt (prompt : string) :
  continues (" " +:+ shellQuote prompt) [prompt].
Proof.
  intros w. rewrite words_blank.
  rewrite <- (str_app_nil_r (shellQuote prompt)), words_quoted. reflexivity.
Qed.

Lemma continues_flag (flag : string) (value : option string) (rest : string)
    (ws : list string) :
  plain flag = true -> flag <> "" -> continues rest ws ->
  continues (flag_part flag value +:+ rest) (flag_words flag value ++ ws).
Proof.
  intros Hp Hne Hrest w. unfold flag_part, flag_words.
  destruct value as [[|c v]|]; rewrite ?str_app_nil_l; try apply Hrest.
  rewrite !str_app_assoc, words_blank, words_plain by done.
  rewrite words_blank, words_quoted. simpl default. rewrite str_app_nil_l.
  rewrite Hrest. reflexivity.
Qed.

Lemma continues_base (rest : string) (ws : list string) :
  continues rest ws ->
  continues (" --json --skip-git-repo-check" +:+ rest)
            ("--json" :: "--skip-git-repo-check" :: ws).
Proof.
  intros Hrest w.
  change (" --json --skip-git-repo-check" +:+ rest)
    with (" " +:+ "--json" +:+ " " +:+ "--skip-git-repo-check" +:+ rest).
  rewrite words_blank, words_plain by done.
  rewrite words_blank, words_plain by done.
  simpl default. rewrite !str_app_nil_l, Hrest. reflexivity.
Qed.

Lemma split_codex_exec (rest : string) (ws : list string) :
  continues rest ws ->
  Posix.split ("codex exec" +:+ rest) = Some ("codex" :: "exec" :: ws).
Proof.
  intros Hrest. unfold Posix.split.
  change ("codex exec" +:+ rest) with ("codex" +:+ " " +:+ "exec" +:+ rest).
  rewrite words_plain by done. rewrite words_blank, words_plain by done.
  simpl default. rewrite !str_app_nil_l, Hrest. reflexivity.
Qed.

Lemma split_shellQuote (value : string) :
  Posix.split (shellQuote value) = Some [value].
Proof.
  unfold Posix.split.
  rewrite <- (str_app_nil_r (shellQuote value)), words_quoted. reflexivity.
Qed.

(** C5. For every prompt, and whatever session id, model and thinking level
    accompany it, [shellQuote] is the value between single quotes with each
    embedded single quote replaced by ['\''], a shell splits the quoted value
    back into the value as one word, and the command that [buildAgentCommand]
    builds from the literal prompt splits into the words of the command with
    the original prompt as its single last argument. *)
Theorem shellQuote_prompt_single_argument
    (prompt : string) (threadId model thinking : option string) :
  shellQuote prompt = "'" +:+ escapeQuotes prompt +:+ "'"
  /\ Posix.split (shellQuote prompt) = Some [prompt]
  /\ Posix.split
       (buildAgentCommand prompt
          {| opt_threadId := threadId; opt_promptExpression := None;
             opt_model := model; opt_thinking := thinking |})
     = Some (["codex"; "exec"] ++ flag_words "resume" threadId
             ++ ["--json"; "--skip-git-repo-check"]
             ++ flag_words "--model" model
             ++ flag_words "--thinking" thinking
             ++ [prompt]).
Proof.
  split; [reflexivity|]. split; [apply split_shellQuote|].
  rewrite buildAgentCommand_shape. cbn [opt_threadId opt_promptExpression
    opt_model opt_thinking resolvePromptValue].
  rewrite <- !str_app_assoc, trim_quoted.
  2:{ rewrite !str_app_assoc. reflexivity. }
  rewrite !str_app_assoc.
  apply split_codex_exec.
  apply continues_flag; [done..|].
  apply continues_base.
  apply continues_flag; [done..|].
  apply continues_flag; [done..|].
  apply continues_prompt.
Qed.

(** C8, as the code has it.  The command line of [buildAgentCommand] is
    fixed by its options: a thinking level [t] is appended as
    [--thinking 't'] after the model, which is appended as [--model 'm'];
    an absent or empty option contributes nothing. *)
Theorem buildAgentCommand_model_and_thinking_flags
    (prompt : string) (options : BuildOptions) :
  buildAgentCommand prompt options
  = Js.trim ("codex exec" +:+ flag_part "resume" (opt_threadId options)
             +:+ " --json --skip-git-repo-check"
             +:+ flag_part "--model" (opt_model options)
             +:+ flag_part "--thinking" (opt_thinking options)
             +:+ " " +:+ resolvePromptValue prompt (opt_promptExpression options))
  /\ (forall (flag : string) (c : ascii) (v : string),
        flag_part flag (Some (String c v))
        = " " +:+ flag +:+ " '" +:+ escapeQuotes (String c v) +:+ "'")
  /\ (forall flag : string,
        flag_part flag None = "" /\ flag_part flag (Some "") = "").
Proof.
  split; [apply buildAgentCommand_shape|]. split; [|done].
  intros flag c v. reflexivity.
Qed.

(** C8, counterexample.  With the thinking level [medium] the command
    carries [--thinking 'medium'] and no [--config] flag. *)
Lemma buildAgentCommand_thinking_is_not_config :
  let command :=
    buildAgentCommand "ping"
      {| opt_threadId := None; opt_promptExpression := None;
         opt_model := Some "gpt-5.2"; opt_thinking := Some "medium" |} in
  command
  = "codex exec --json --skip-git-repo-check --model 'gpt-5.2' --thinking 'medium' 'ping'"
  /\ Js.includes
       ("--config 'model_reasoning_effort=" +:+
        String Posix.dquote ("medium" +:+ String Posix.dquote "'"))
       command = false.
Proof. split; reflexivity. Qed.

End CommandBuilder.

(** ** The thread store *)

Section ThreadStore.

Lemma canonical_key_not_legacy (chatId : Z) (agentId : string) :
  buildThreadKey chatId agentId <> getLegacyThreadKey chatId.
Proof.
  unfold buildThreadKey, getLegacyThreadKey. intros H.
  apply (f_equal String.length) in H.
  rewrite !str_length_app in H. simpl in H. lia.
Qed.

Lemma truthy_nonempty (v : string) : v <> "" -> Js.truthy (Some v) = true.
Proof. by destruct v. Qed.

Lemma resolveThreadId_direct (threads : gmap string string) (chatId : Z)
    (agentId id : string) :
  id <> "" -> threads !! buildThreadKey chatId agentId = Some id ->
  resolveThreadId threads chatId agentId
  = ({| threadKey := buildThreadKey chatId agentId; threadId := Some id;
        migrated := false |}, threads).
Proof.
  intros Hid Hlook. unfold resolveThreadId. rewrite Hlook.
  by rewrite truthy_nonempty.
Qed.

(** C3. When the only entry of a conversation is the one under the legacy
    key, holding a session id, [resolveThreadId] returns that id with
    [migrated = true] and leaves the map with the id under the canonical key
    and without the legacy entry; a second call for the same chat and agent
    finds the id under the canonical key, returns [migrated = false] and
    leaves the map as it is. *)
Theorem resolveThreadId_migrates_legacy_once
    (threads : gmap string string) (chatId : Z) (agentId id : string) :
  id <> "" ->
  threads !! buildThreadKey chatId agentId = None ->
  threads !! getLegacyThreadKey chatId = Some id ->
  let first := resolveThreadId threads chatId agentId in
  let second := resolveThreadId first.2 chatId agentId in
  first.1 = {| threadKey := buildThreadKey chatId agentId;
               threadId := Some id; migrated := true |}
  /\ first.2 = delete (getLegacyThreadKey chatId)
                 (<[buildThreadKey chatId agentId := id]> threads)
  /\ first.2 !! buildThreadKey chatId agentId = Some id
  /\ first.2 !! getLegacyThreadKey chatId = None
  /\ second.1 = {| threadKey := buildThreadKey chatId agentId;
                   threadId := Some id; migrated := false |}
  /\ second.2 = first.2.
Proof.
  intros Hid Hnew Hold.
  assert (Hne := canonical_key_not_legacy chatId agentId).
  assert (Hfirst : resolveThreadId threads chatId agentId
    = ({| threadKey := buildThreadKey chatId agentId; threadId := Some id;
          migrated := true |},
       delete (getLegacyThreadKey chatId)
         (<[buildThreadKey chatId agentId := id]> threads))).
  { unfold resolveThreadId. rewrite Hnew, Hold. simpl Js.truthy. cbv iota.
    destruct id; [done|reflexivity]. }
  cbv zeta. rewrite Hfirst. cbn [fst snd].
  assert (Hcanon : delete (getLegacyThreadKey chatId)
            (<[buildThreadKey chatId agentId := id]> threads)
            !! buildThreadKey chatId agentId = Some id).
  { rewrite lookup_delete_ne by done. apply lookup_insert_eq. }
  rewrite (resolveThreadId_direct _ _ _ id Hid Hcanon).
  repeat split; try done.
  apply lookup_delete_eq.
Qed.

Lemma resolveThreadId_migrates_legacy_once_witness :
  let threads : gmap string string := {[ "42" := "sess-old" ]} in
  let first := resolveThreadId threads 42 "codex" in
  first.1 = {| threadKey := "42:codex"; threadId := Some "sess-old";
               migrated := true |}
  /\ first.2 !! "42:codex" = Some "sess-old"
  /\ first.2 !! "42" = None
  /\ (resolveThreadId first.2 42 "codex").1
     = {| threadKey := "42:codex"; threadId := Some "sess-old";
          migrated := false |}.
Proof.
  pose proof (resolveThreadId_migrates_legacy_once
                {[ "42" := "sess-old" ]} 42 "codex" "sess-old")
    as H.
  destruct H as (H1 & H2 & H3 & H4 & H5 & H6);
    [discriminate | reflexivity | reflexivity |].
  repeat split; assumption.
Defined.

(** C7. On an empty map [resolveThreadId] returns no session id and
    [migrated = false] for every chat and agent, and leaves the map empty;
    once a session id is stored under the canonical key, as the runner does
    for the id of a turn, [resolveThreadId] for the same chat and agent
    returns exactly that id, with [migrated = false] and the map unchanged. *)
Theorem resolveThreadId_empty_and_persisted
    (threads : gmap string string) (chatId : Z) (agentId id : string) :
  id <> "" ->
  resolveThreadId ∅ chatId agentId
  = ({| threadKey := buildThreadKey chatId agentId; threadId := None;
        migrated := false |}, ∅)
  /\ resolveThreadId (<[buildThreadKey chatId agentId := id]> threads)
       chatId agentId
     = ({| threadKey := buildThreadKey chatId agentId; threadId := Some id;
           migrated := false |},
        <[buildThreadKey chatId agentId := id]> threads).
Proof.
  intros Hid. split.
  - unfold resolveThreadId. by rewrite !lookup_empty.
  - apply resolveThreadId_direct; [done|]. apply lookup_insert_eq.
Qed.

Lemma resolveThreadId_empty_and_persisted_witness :
  resolveThreadId ∅ 12345 "codex"
  = ({| threadKey := "12345:codex"; threadId := None; migrated := false |}, ∅)
  /\ resolveThreadId (<["12345:codex" := "thread-1"]> ∅) 12345 "codex"
     = ({| threadKey := "12345:codex"; threadId := Some "thread-1";
           migrated := false |}, <["12345:codex" := "thread-1"]> ∅).
Proof.
  exact (resolveThreadId_empty_and_persisted ∅ 12345 "codex" "thread-1"
           ltac:(discriminate)).
Defined.

End ThreadStore.

(** ** The output parser *)

Section OutputParser.

Variable parse : string -> option json.

Lemma includes_char_cons (a c : ascii) (r : string) :
  Js.includes (String a "") (String c r) = false ->
  Ascii.eqb c a = false /\ Js.includes (String a "") r = false.
Proof.
  simpl. destruct (ascii_dec a c) as [->|Hne].
  - destruct r; discriminate.
  - intros H. split; [|exact H]. apply Ascii.eqb_neq. congruence.
Qed.

Lemma split_lines_cons (line rest : string) :
  Js.includes LF line = false ->
  Js.includes (String CR "") line = false ->
  split_lines (line +:+ LF +:+ rest) = line :: split_lines rest.
Proof.
  induction line as [|c r IH]; intros Hlf Hcr.
  - reflexivity.
  - apply includes_char_cons in Hlf as [Hc1 Hlf].
    apply includes_char_cons in Hcr as [Hc2 Hcr].
    rewrite str_app_cons. specialize (IH Hlf Hcr).
    cbn [split_lines]. rewrite Hc1. unfold CR in *. rewrite Hc2.
    cbn [andb]. rewrite IH.
    destruct r; reflexivity.
Qed.

Lemma split_lines_single (line : string) :
  Js.includes LF line = false ->
  Js.includes (String CR "") line = false ->
  split_lines line = [line].
Proof.
  induction line as [|c r IH]; intros Hlf Hcr; [reflexivity|].
  apply includes_char_cons in Hlf as [Hc1 Hlf].
  apply includes_char_cons in Hcr as [Hc2 Hcr].
  cbn [split_lines]. rewrite Hc1. unfold CR in *. rewrite Hc2.
  cbn [andb]. rewrite (IH Hlf Hcr). destruct r; reflexivity.
Qed.

Lemma split_lines_join (lines : list string) :
  lines <> [] ->
  Forall (fun line => Js.includes LF line = false
                      /\ Js.includes (String CR "") line = false) lines ->
  split_lines (Js.join LF lines) = lines.
Proof.
  intros Hne Hall. induction Hall as [|line rest [Hlf Hcr] Hrest IH]; [done|].
  destruct rest as [|next rest].
  - by apply split_lines_single.
  - change (Js.join LF (line :: next :: rest))
      with (line +:+ LF +:+ Js.join LF (next :: rest)).
    rewrite split_lines_cons by done. f_equal. by apply IH.
Qed.

Lemma consume_payload_buffer (st : LoopState) (payload : json) :
  buffer (consume_payload st payload) = "".
Proof.
  unfold consume_payload. repeat case_match; reflexivity.
Qed.

Lemma consume_record_line (st : LoopState) (line : string) (payload : json) :
  buffer st = "" -> record_line parse line payload ->
  consume_line parse st line = consume_payload st payload.
Proof.
  intros Hb (Hstart & _ & _ & Hparse).
  unfold consume_line. by rewrite Hb, Hstart, Hparse.
Qed.

Lemma consume_record_lines (lines : list string) (payloads : list json) :
  Forall2 (record_line parse) lines payloads ->
  forall st : LoopState, buffer st = "" ->
  fold_left (consume_line parse) lines st = fold_left consume_payload payloads st.
Proof.
  induction 1 as [|line payload lines payloads Hline _ IH]; intros st Hb.
  - reflexivity.
  - cbn [fold_left]. rewrite (consume_record_line st line payload Hb Hline).
    apply IH, consume_payload_buffer.
Qed.

Lemma includes_message_nonempty (s : string) :
  Js.includes "message" s = true -> Js.truthy (Some s) = true.
Proof. by destruct s. Qed.

Lemma consume_message_record (st : LoopState) (payload : json) (text : string) :
  message_record payload text ->
  consume_payload st payload
  = {| buffer := ""; loop_threadId := loop_threadId st;
       messages := messages st ++ [text]; sawJson := true |}.
Proof.
  intros (Htype & item & itemType & Hitem & Hty & Hinc & Htext).
  unfold consume_payload. rewrite Htype, Hitem. cbn.
  rewrite Htext, Hty. cbn. rewrite Hinc.
  destruct itemType; [discriminate|reflexivity].
Qed.

Lemma consume_message_records (records : list (json * string)) :
  Forall (fun r => message_record r.1 r.2) records ->
  forall st : LoopState,
  fold_left consume_payload records.*1 st
  = {| buffer := match records with [] => buffer st | _ => "" end;
       loop_threadId := loop_threadId st;
       messages := messages st ++ records.*2;
       sawJson := match records with [] => sawJson st | _ => true end |}.
Proof.
  induction 1 as [|[payload text] records Hrec _ IH]; intros st.
  - cbn. rewrite app_nil_r. by destruct st.
  - cbn [fmap list_fmap fold_left fst snd].
    rewrite (consume_message_record st payload text Hrec).
    rewrite IH. cbn. rewrite <- app_assoc. cbn.
    destruct records; reflexivity.
Qed.

End OutputParser.

(** C4, as the code has it.  For every output whose lines are well-formed
    records of completed messages, [parseAgentOutput] returns as the reply
    the texts of all these messages, in the order of the output, joined by
    newlines and trimmed, reports that it saw JSON, and returns no thread
    id; what the records carry besides their type and text, a channel
    marker among them, has no part in it. *)
Theorem parseAgentOutput_joins_all_messages
    (parse : string -> option json)
    (lines : list string) (records : list (json * string)) :
  lines <> [] ->
  Forall2 (fun line r => record_line parse line r.1 /\ message_record r.1 r.2)
          lines records ->
  parseAgentOutput parse (Js.join LF lines)
  = {| out_text := Js.trim (Js.join LF records.*2);
       out_threadId := None;
       out_sawJson := true |}.
Proof.
  intros Hne Hall.
  assert (Hlines : Forall2 (record_line parse) lines records.*1).
  { clear Hne. induction Hall as [|? ? ? ? [? _]]; constructor; done. }
  assert (Hrecs : Forall (fun r => message_record r.1 r.2) records).
  { clear Hne Hlines. induction Hall as [|? ? ? ? [_ ?]]; constructor; done. }
  assert (Hsplit : split_lines (Js.join LF lines) = lines).
  { apply split_lines_join; [done|]. clear Hne Hlines Hrecs.
    induction Hall as [|? ? ? ? [(_ & ? & ? & _) _]]; constructor; done. }
  unfold parseAgentOutput, parseCodexJsonOutput. rewrite Hsplit.
  rewrite (consume_record_lines parse lines records.*1 Hlines) by reflexivity.
  rewrite (consume_message_records records Hrecs). cbn.
  destruct records as [|r records]; [|reflexivity].
  inversion Hall; subst. done.
Qed.

Lemma parseAgentOutput_joins_all_messages_witness :
  parseAgentOutput Json.parse (Js.join LF final_then_commentary)
  = {| out_text := "hecho: resultado final" +:+ LF +:+ "voy a hacer X";
       out_threadId := None;
       out_sawJson := true |}.
Proof.
  apply (parseAgentOutput_joins_all_messages Json.parse final_then_commentary
    [ (JObject [("type", JString "item.completed");
                ("item", JObject [("type", JString "message");
                                  ("channel", JString "final");
                                  ("text", JString "hecho: resultado final")])],
       "hecho: resultado final");
      (JObject [("type", JString "item.completed");
                ("item", JObject [("type", JString "message");
                                  ("channel", JString "commentary");
                                  ("text", JString "voy a hacer X")])],
       "voy a hacer X") ]).
  - discriminate.
  - repeat constructor; try reflexivity; eexists _, _; repeat split; reflexivity.
Defined.

(** C4, counterexample.  On two messages without channel markers the
    reply is both texts, not the last one; on a message of the final
    channel followed by a commentary the reply is both texts, not the text
    of the final channel. *)
Lemma parseAgentOutput_does_not_pick_one_message :
  out_text (parseAgentOutput Json.parse (Js.join LF two_messages))
    = "paso intermedio" +:+ LF +:+ "respuesta final"
  /\ out_text (parseAgentOutput Json.parse (Js.join LF two_messages))
     <> "respuesta final"
  /\ out_text (parseAgentOutput Json.parse (Js.join LF final_then_commentary))
     = "hecho: resultado final" +:+ LF +:+ "voy a hacer X"
  /\ out_text (parseAgentOutput Json.parse (Js.join LF final_then_commentary))
     <> "hecho: resultado final".
Proof. repeat split; try reflexivity; vm_compute; discriminate. Qed.

Example parseAgentOutput_thread_and_message :
  parseAgentOutput Json.parse
    (Js.join LF
       [ "noise";
         Json.text "{`type`:`thread.started`,`thread_id`:`thread-1`}";
         Json.text "{`type`:`item.completed`,`item`:{`type`:`message`,`text`:`hi there`}}" ])
  = {| out_text := "hi there"; out_threadId := Some (JString "thread-1");
       out_sawJson := true |}.
Proof. reflexivity. Qed.

Example parseAgentOutput_empty :
  parseAgentOutput Json.parse ""
  = {| out_text := ""; out_threadId := None; out_sawJson := false |}.
Proof. reflexivity. Qed.

(** ** The agent runner *)

Ltac in_list :=
  repeat first [ apply list_elem_of_here | apply list_elem_of_further ].

Section AgentRunner.

Import Runner.

Ltac run_monad :=
  unfold mbind, M_bind, mret, M_ret, bind, ret, throw, lift, log, when,
    try_catch, finally, persist, exec, emit in *; cbn in *.


Lemma extend_nil (st : RunnerState) : extend st [] = st.
Proof. destruct st. unfold extend. cbn. by rewrite app_nil_r. Qed.

Lemma extend_extend (st : RunnerState) (events events' : list Event) :
  extend (extend st events) events' = extend st (events ++ events').
Proof. unfold extend. cbn. by rewrite app_assoc. Qed.

Lemma exec_count_extend (st : RunnerState) (events : list Event) :
  exec_count (extend st events)
  = (exec_count st + length (List.filter is_exec events))%nat.
Proof. unfold exec_count, extend. cbn. by rewrite List.filter_app, length_app. Qed.

Lemma bind_ok {A B} (m : M A) (k : A -> M B) (st st' : RunnerState) (a : A) :
  m st = (Ok a, st') -> (m ≫= k) st = k a st'.
Proof. intros H. unfold mbind, M_bind, bind. by rewrite H. Qed.

Lemma bind_throw {A B} (m : M A) (k : A -> M B) (st st' : RunnerState)
    (e : Error) :
  m st = (Throw e, st') -> (m ≫= k) st = (Throw e, st').
Proof. intros H. unfold mbind, M_bind, bind. by rewrite H. Qed.

Lemma added_app (st st' : RunnerState) (events : list Event) :
  trace st' = trace st ++ events -> added st st' = events.
Proof. intros H. unfold added. rewrite H. apply drop_app_length. Qed.

Lemma filter_is_exec_nil (events : list Event) :
  Forall (fun e => is_exec e = false) events -> List.filter is_exec events = [].
Proof.
  induction 1 as [|e events He _ IH]; [reflexivity|].
  simpl. rewrite He. exact IH.
Qed.

Lemma exec_count_app (st st' : RunnerState) (events : list Event) :
  trace st' = trace st ++ events ->
  Forall (fun e => is_exec e = false) events ->
  exec_count st' = exec_count st.
Proof.
  intros H Hall. unfold exec_count. rewrite H, List.filter_app, length_app.
  rewrite (filter_is_exec_nil events Hall). simpl. lia.
Qed.

Lemma prepareTurn_spec (o : RunnerOptions) (chatId : Z) (prompt : string)
    (runOptions : RunOptions) (st : RunnerState) (agent : Agent) :
  getAgent o (effectiveAgent o chatId runOptions) = Ok agent ->
  let resolved := resolution o chatId runOptions st in
  let turnCount := turnCountOf o chatId runOptions st in
  let flag := negb (Js.truthy (threadId resolved.1))
              || is_multiple turnCount (fileInstructionsEvery o) in
  let run := prepareTurn o chatId prompt runOptions st in
  exists events,
    run.2 = {| threads := resolved.2;
               threadTurns := <[threadKey resolved.1 := turnCount]> (threadTurns st);
               trace := trace st ++ events |}
    /\ Forall (fun e => is_exec e = false) events
    /\ (forall p f, EvBuildPrompt p f ∈ events -> f = flag)
    /\ (forall p, run.1 = Ok p ->
          prep_agent p = agent /\ prep_threadKey p = threadKey resolved.1
          /\ exists text, EvBuildPrompt text flag ∈ events)
    /\ (contexts_available o -> exists p, run.1 = Ok p).
Proof.
  intros Hagent. cbv zeta. unfold turnCountOf, resolution, prepareTurn.
  unfold effectiveAgent in *. 
  destruct (resolveThreadId o (threads st) chatId (ro_topicId runOptions) _)
    as [resolved threads'] eqn:Hres.
  run_monad. rewrite Hagent, Hres. cbn.
  destruct (migrated resolved); cbn;
    destruct (persistThreads o); cbn;
    destruct (Js.truthy (threadId resolved)) eqn:Hthread; cbn;
    try destruct (buildBootstrapContext o (threadKey resolved)) eqn:Hboot; cbn;
    try match goal with
        | |- context [buildMemoryRetrievalContext o ?q] =>
            destruct (buildMemoryRetrievalContext o q) eqn:Hmem
        end; cbn;
    run_monad; rewrite <- ?app_assoc;
    (first [ eexists; split; [reflexivity|]
           | exists []; split; [by rewrite app_nil_r|] ]);
    (split; [repeat constructor|]);
    (split; [intros p f Hin;
             repeat (apply elem_of_cons in Hin as [Hin|Hin];
                     [try discriminate; by injection Hin as ? ->|]);
             by apply elem_of_nil in Hin|]);
    (split; [intros p [= <-]; cbn; repeat split; eexists; in_list|]);
    intros [Hb Hm];
    try (destruct (Hb (threadKey resolved)) as [? ?]; congruence);
    try (destruct (Hm {| rq_query := prompt; rq_chatId := chatId;
                         rq_topicId := ro_topicId runOptions;
                         rq_agentId := resolveEffectiveAgentId o chatId
                                         (ro_topicId runOptions)
                                         (ro_agentId runOptions);
                         rq_limit := memoryRetrievalLimit o |}) as [? ?];
         congruence);
    eauto.
Qed.


Lemma persist_spec (o : RunnerOptions) (message : string) (st : RunnerState) :
  exists events,
    persist o message st = (Ok tt, extend st events)
    /\ Forall (fun e => is_exec e = false /\ is_buildPrompt e = false) events.
Proof.
  unfold persist. run_monad. destruct (persistThreads o) as [[]|e]; cbn;
    rewrite <- ?app_assoc; eexists; (split; [reflexivity|]);
    repeat constructor.
Qed.

Lemma runCommand_spec (o : RunnerOptions) (command : string) (st : RunnerState) :
  runCommand o command st
  = (match execLocal o (exec_count st) "bash" ["-lc"; command]
             (agentTimeoutMs o) (agentMaxBuffer o) with
     | Ok output => Ok (output, None)
     | Throw err =>
         match err_stdout err with
         | Some stdout =>
             if Js.truthy (Some (Js.trim stdout))
             then Ok (stdout, Some err) else Throw err
         | None => Throw err
         end
     end,
     extend st [EvExec "bash" ["-lc"; command]; EvInfo "Agent finished"]).
Proof.
  unfold runCommand, extend. run_monad.
  destruct (execLocal o _ _ _ _ _) as [output|err]; cbn;
    [|destruct (err_stdout err) as [stdout|]; cbn;
      [destruct (Js.trim stdout); cbn|]];
    by rewrite <- app_assoc.
Qed.

Lemma recoverThreadId_spec (o : RunnerOptions) (agent : Agent)
    (parsedThreadId : option string) (st : RunnerState) :
  exists id events,
    recoverThreadId o agent parsedThreadId st = (Ok id, extend st events)
    /\ Forall (fun e => is_buildPrompt e = false) events
    /\ (Js.truthy parsedThreadId = true -> id = parsedThreadId)
    /\ (forall listCommand,
          Js.truthy parsedThreadId = false ->
          listSessionsCommand agent = Some (Ok listCommand) ->
          let listing := EvExec "bash" ["-lc"; decorate o agent listCommand] in
          let outcome := execLocal o (exec_count st) "bash"
                           ["-lc"; decorate o agent listCommand]
                           (agentTimeoutMs o) (agentMaxBuffer o) in
          listing ∈ events
          /\ (forall listOutput parseList sessionId,
                outcome = Ok listOutput ->
                parseSessionList agent = Some parseList ->
                parseList listOutput = Ok (Some sessionId) ->
                sessionId <> "" ->
                id = Some sessionId)
          /\ (forall e, outcome = Throw e ->
                id = parsedThreadId
                /\ EvWarn "Failed to resolve agent session id:" ∈ events)).
Proof.
  unfold recoverThreadId.
  destruct (listSessionsCommand agent) as [[listCommand|e]|] eqn:Hlist.
  - destruct (Js.truthy parsedThreadId) eqn:Htruthy; cbn [negb].
    + exists parsedThreadId, []. rewrite extend_nil.
      repeat split; done.
    + unfold extend. run_monad.
      destruct (execLocal o _ _ _ _ _) as [listOutput|e] eqn:Hexec; cbn.
      * destruct (parseSessionList agent) as [parseList|] eqn:Hparse; cbn.
        -- destruct (parseList listOutput) as [resolved|e] eqn:Hres; cbn;
             rewrite <- ?app_assoc; eexists _, _; (split; [reflexivity|]);
             (split; [repeat constructor|]); (split; [done|]);
             intros ? _ [= <-]; (split; [in_list|]);
             (split; [|intros ?; congruence]);
             intros lo pl sid Hlo [= <-] Hsid Hne;
             rewrite Hexec in Hlo; injection Hlo as <-;
             rewrite Hres in Hsid; [injection Hsid as ->|discriminate].
           by destruct sid.
        -- eexists _, _; (split; [reflexivity|]);
             (split; [repeat constructor|]); (split; [done|]).
           intros ? _ [= <-]. split; [in_list|]. split; [|intros; congruence].
           intros; congruence.
      * rewrite <- ?app_assoc. eexists _, _; (split; [reflexivity|]);
             (split; [repeat constructor|]); (split; [done|]).
        intros ? _ [= <-]. split; [in_list|]. split; [intros; congruence|].
        intros e' _. split; [reflexivity|in_list].
  - destruct (Js.truthy parsedThreadId) eqn:Htruthy; cbn [negb].
    + exists parsedThreadId, []. rewrite extend_nil.
      repeat split; done.
    + unfold extend. run_monad. eexists _, _; (split; [reflexivity|]).
      split; [repeat constructor|]. split; [done|]. intros; congruence.
  - exists parsedThreadId, []. rewrite extend_nil.
    repeat split; done.
Qed.

Lemma storeThreadId_spec (o : RunnerOptions) (key : string)
    (id : option string) (st : RunnerState) :
  exists events,
    storeThreadId o key id st
    = (Ok tt,
       {| threads := match id with
                     | Some (String c v) => <[key := String c v]> (threads st)
                     | _ => threads st
                     end;
          threadTurns := threadTurns st;
          trace := trace st ++ events |})
    /\ Forall (fun e => is_exec e = false /\ is_buildPrompt e = false) events.
Proof.
  unfold storeThreadId. destruct id as [[|c v]|].
  - exists []. rewrite app_nil_r. destruct st. split; [reflexivity|constructor].
  - destruct (persist_spec o "Failed to persist threads:"
                {| threads := <[key := String c v]> (threads st);
                   threadTurns := threadTurns st; trace := trace st |})
      as (events & Hp & Hall).
    exists events. split; [|done].
    erewrite bind_ok; [|reflexivity]. exact Hp.
  - exists []. rewrite app_nil_r. destruct st. split; [reflexivity|constructor].
Qed.


(** The second part of a turn: what it returns and what it leaves, by the
    outcome of the command. *)
Lemma completeTurn_spec (o : RunnerOptions) (p : Prepared) (st : RunnerState) :
  let agent := prep_agent p in
  let run := completeTurn o p st in
  exists events,
    trace run.2 = trace st ++ events
    /\ Forall (fun e => is_buildPrompt e = false) events
    /\ threadTurns run.2 = threadTurns st
    /\ match (runCommand o (prep_commandToRun p) st).1 with
       | Throw err => run.1 = Throw err /\ threads run.2 = threads st
       | Ok (output, execError) =>
           let parsed := parseOutput agent output in
           match execError with
           | Some err =>
               negb (parsed_sawJson parsed)
               && negb (Js.truthy (Some (Js.trim (parsed_text parsed)))) = true
               -> run.1 = Throw err /\ threads run.2 = threads st
           | None => True
           end
           /\ (match execError with
               | Some err =>
                   negb (parsed_sawJson parsed)
                   && negb (Js.truthy (Some (Js.trim (parsed_text parsed))))
                   = false
               | None => True
               end ->
               exists id st1 recovery,
                 exec_count st1 = S (exec_count st)
                 /\ recoverThreadId o agent (parsed_threadId parsed) st1
                    = (Ok id, extend st1 recovery)
                 /\ (forall e, e ∈ recovery -> e ∈ events)
                 /\ run.1 = Ok (replyOf agent output)
                 /\ threads run.2
                    = match id with
                      | Some (String c v) =>
                          <[prep_threadKey p := String c v]> (threads st)
                      | _ => threads st
                      end)
       end.
Proof.
  cbv zeta. unfold completeTurn.
  pose proof (runCommand_spec o (prep_commandToRun p) st) as Hrun.
  destruct (runCommand o (prep_commandToRun p) st) as [first st1] eqn:Hfirst.
  injection Hrun as Hfirst1 ->. cbn [fst]. clear Hfirst1.
  destruct first as [[output execError]|err].
  2:{ erewrite bind_throw by exact Hfirst. cbn.
      eexists. split; [reflexivity|]. repeat split; repeat constructor. }
  erewrite bind_ok by exact Hfirst.
  set (st1 := extend st _) in *.
  set (parsed := parseOutput (prep_agent p) output).
  assert (Hcheck : forall st2 warned,
    st2 = extend st1 warned ->
    Forall (fun e => is_exec e = false /\ is_buildPrompt e = false) warned ->
    exists events,
      let run := ((recoverThreadId o (prep_agent p) (parsed_threadId parsed)
                   ≫= (fun parsedThreadId =>
                         storeThreadId o (prep_threadKey p) parsedThreadId ;;
                         mret (Js.or_else (parsed_text parsed) output))) st2) in
      trace run.2 = trace st ++ events
      /\ Forall (fun e => is_buildPrompt e = false) events
      /\ threadTurns run.2 = threadTurns st
      /\ exists id st1 recovery,
           exec_count st1 = S (exec_count st)
           /\ recoverThreadId o (prep_agent p) (parsed_threadId parsed) st1
              = (Ok id, extend st1 recovery)
           /\ (forall e, e ∈ recovery -> e ∈ events)
           /\ run.1 = Ok (replyOf (prep_agent p) output)
           /\ threads run.2
              = match id with
                | Some (String c v) =>
                    <[prep_threadKey p := String c v]> (threads st)
                | _ => threads st
                end).
  { intros st2 warned -> Hwarned.
    destruct (recoverThreadId_spec o (prep_agent p) (parsed_threadId parsed)
                (extend st1 warned)) as (id & recovery & Hrec & Hrecovery & _).
    destruct (storeThreadId_spec o (prep_threadKey p) id
                (extend (extend st1 warned) recovery)) as (stored & Hstore & Hstored).
    cbv zeta. erewrite bind_ok by exact Hrec.
    erewrite bind_ok by exact Hstore. cbn [fst snd mret M_ret ret].
    exists ([EvExec "bash" ["-lc"; prep_commandToRun p]; EvInfo "Agent finished"]
            ++ warned ++ recovery ++ stored).
    split. { cbn. by rewrite <- !app_assoc. }
    split. { repeat (apply Forall_app; split); try done.
             - repeat constructor.
             - eapply Forall_impl; [exact Hwarned|]. by intros ? [_ ?].
             - eapply Forall_impl; [exact Hstored|]. by intros ? [_ ?]. }
    split; [reflexivity|].
    exists id, (extend st1 warned), recovery.
    split. { unfold st1. rewrite !exec_count_extend.
             rewrite (filter_is_exec_nil warned); [cbn; lia|].
             eapply Forall_impl; [exact Hwarned|]. by intros ? [? _]. }
    split; [exact Hrec|]. split; [|by split].
    intros e He. rewrite !elem_of_app. auto. }
  subst parsed. cbv zeta in Hcheck.
  destruct execError as [err|].
  - unfold checkOutput.
    destruct (negb (parsed_sawJson (parseOutput (prep_agent p) output))
              && negb (Js.truthy (Some (Js.trim (parsed_text
                         (parseOutput (prep_agent p) output)))))) eqn:Hbad.
    + erewrite bind_throw by reflexivity. cbn.
      eexists. split; [reflexivity|]. split; [repeat constructor|].
      split; [reflexivity|]. split; [done|]. intros; congruence.
    + erewrite bind_ok by reflexivity.
      destruct (Hcheck (extend st1 [EvWarn "Agent exited non-zero; returning stdout"])
                  [EvWarn "Agent exited non-zero; returning stdout"])
        as (events & Htrace & Hall & Hturns & Hrest); [done|repeat constructor|].
      exists events. split; [exact Htrace|]. split; [exact Hall|].
      split; [exact Hturns|]. split; [intros; congruence|]. intros _. exact Hrest.
  - unfold checkOutput. erewrite bind_ok by reflexivity.
    destruct (Hcheck st1 []) as (events & Htrace & Hall & Hturns & Hrest);
      [by rewrite extend_nil|constructor|].
    exists events. split; [exact Htrace|]. split; [exact Hall|].
    split; [exact Hturns|]. split; [done|]. intros _. exact Hrest.
Qed.


Lemma runAgentForChat_unfold (o : RunnerOptions) (chatId : Z) (prompt : string)
    (runOptions : RunOptions) (st : RunnerState) :
  runAgentForChat o chatId prompt runOptions st
  = match prepareTurn o chatId prompt runOptions st with
    | (Ok p, st') => completeTurn o p st'
    | (Throw e, st') => (Throw e, st')
    end.
Proof. reflexivity. Qed.

Lemma is_multiple_divide (count every : nat) :
  is_multiple (count + 1) every = true <-> Nat.divide every (count + 1).
Proof.
  unfold is_multiple. destruct every as [|n].
  - split; [done|]. intros [k Hk]. lia.
  - rewrite Nat.eqb_eq. apply Nat.Lcm0.mod_divide.
Qed.

Lemma not_buildPrompt_elem (events : list Event) (text : string) (f : bool) :
  Forall (fun e => is_buildPrompt e = false) events ->
  EvBuildPrompt text f ∉ events.
Proof.
  intros Hall Hin. rewrite Forall_forall in Hall.
  specialize (Hall _ Hin). discriminate.
Qed.

(** The whole turn, from what its two parts give. *)
Lemma runAgentForChat_spec (o : RunnerOptions) (chatId : Z) (prompt : string)
    (runOptions : RunOptions) (st : RunnerState) (agent : Agent) :
  getAgent o (effectiveAgent o chatId runOptions) = Ok agent ->
  let resolved := resolution o chatId runOptions st in
  let turnCount := turnCountOf o chatId runOptions st in
  let flag := negb (Js.truthy (threadId resolved.1))
              || is_multiple turnCount (fileInstructionsEvery o) in
  let run := runAgentForChat o chatId prompt runOptions st in
  exists prepared completed st0,
    trace st0 = trace st ++ prepared
    /\ threads st0 = resolved.2
    /\ threadTurns st0 = <[threadKey resolved.1 := turnCount]> (threadTurns st)
    /\ exec_count st0 = exec_count st
    /\ trace run.2 = trace st ++ prepared ++ completed
    /\ threadTurns run.2 = threadTurns st0
    /\ (forall text f, EvBuildPrompt text f ∈ prepared ++ completed -> f = flag)
    /\ match prepareTurn o chatId prompt runOptions st with
       | (Ok p, st') =>
           st' = st0 /\ prep_agent p = agent
           /\ prep_threadKey p = threadKey resolved.1
           /\ (exists text, EvBuildPrompt text flag ∈ prepared)
           /\ run = completeTurn o p st0
       | (Throw e, st') => run = (Throw e, st0) /\ ~ contexts_available o
       end.
Proof.
  intros Hagent. cbv zeta.
  destruct (prepareTurn_spec o chatId prompt runOptions st agent Hagent)
    as (prepared & Hst & Hexec & Hflag & Hok & Havail).
  rewrite runAgentForChat_unfold.
  destruct (prepareTurn o chatId prompt runOptions st) as [[p|e] st0] eqn:Hprep;
    cbn [fst snd] in *.
  - destruct (completeTurn_spec o p st0) as (completed & Htrace & Hall & Hturns & _).
    destruct (Hok p eq_refl) as (Hp1 & Hp2 & Hp3).
    exists prepared, completed, st0. subst st0. cbn [trace threads threadTurns] in *.
    split; [reflexivity|]. split; [reflexivity|]. split; [reflexivity|].
    split; [eapply exec_count_app; [reflexivity|done]|].
    split; [by rewrite Htrace, <- app_assoc|].
    split; [exact Hturns|].
    split.
    { intros text f [Hin|Hin]%elem_of_app; [by eapply Hflag|].
      by apply not_buildPrompt_elem in Hin. }
    by repeat split.
  - exists prepared, [], st0. subst st0. cbn [trace threads threadTurns] in *.
    rewrite app_nil_r.
    split; [reflexivity|]. split; [reflexivity|]. split; [reflexivity|].
    split; [eapply exec_count_app; [reflexivity|done]|].
    split; [reflexivity|]. split; [reflexivity|].
    split; [intros text f Hin; by eapply Hflag|].
    split; [reflexivity|].
    intros Hctx. destruct (Havail Hctx) as [p Hp]. discriminate.
Qed.


(** The command of a turn that got as far as its process. *)
Lemma prepareTurn_command (o : RunnerOptions) (chatId : Z) (prompt : string)
    (runOptions : RunOptions) (st : RunnerState) (agent : Agent)
    (p : Prepared) (st0 : RunnerState) :
  getAgent o (effectiveAgent o chatId runOptions) = Ok agent ->
  prepareTurn o chatId prompt runOptions st = (Ok p, st0) ->
  let resolved := resolution o chatId runOptions st in
  exists text flag,
    EvBuildPrompt text flag ∈ added st st0
    /\ prep_commandToRun p
       = assembled o agent
           {| req_prompt :=
                buildPrompt o text (default [] (ro_imagePaths runOptions))
                  (imageDir o) (ro_scriptContext runOptions)
                  (default [] (ro_documentPaths runOptions)) (documentDir o) flag;
              req_promptExpression :=
                Some (String Posix.dquote ("$PROMPT" +:+ String Posix.dquote ""));
              req_threadId := threadId resolved.1;
              req_thinking := getGlobalThinking o;
              req_model := getGlobalModels o (effectiveAgent o chatId runOptions) |}.
Proof.
  intros Hagent. cbv zeta. unfold resolution, prepareTurn.
  unfold effectiveAgent in *.
  destruct (resolveThreadId o (threads st) chatId (ro_topicId runOptions) _)
    as [resolved threads'] eqn:Hres.
  run_monad. rewrite Hagent, Hres. cbn.
  destruct (migrated resolved); cbn;
    destruct (persistThreads o); cbn;
    destruct (Js.truthy (threadId resolved)) eqn:Hthread; cbn;
    try destruct (buildBootstrapContext o (threadKey resolved)) eqn:Hboot; cbn;
    try match goal with
        | |- context [buildMemoryRetrievalContext o ?q] =>
            destruct (buildMemoryRetrievalContext o q) eqn:Hmem
        end; cbn;
    intros [= <- <-]; unfold added; cbn; rewrite <- ?app_assoc;
    rewrite drop_app_length; eexists _, _; (split; [in_list|reflexivity]).
Qed.


Lemma runs_at_most_weaken {A} (n k : nat) (m : M A) :
  (n <= k)%nat -> runs_at_most n m -> runs_at_most k m.
Proof.
  intros Hle Hm st. destruct (Hm st) as (events & Htrace & Hcount).
  exists events. split; [done|lia].
Qed.

Lemma runs_at_most_bind {A B} (n k : nat) (m : M A) (f : A -> M B) :
  runs_at_most n m -> (forall a, runs_at_most k (f a)) ->
  runs_at_most (n + k) (m ≫= f).
Proof.
  intros Hm Hf st. destruct (Hm st) as (events & Htrace & Hcount).
  unfold mbind, M_bind, bind.
  destruct (m st) as [[a|e] st1]; cbn [snd] in *.
  - destruct (Hf a st1) as (events' & Htrace' & Hcount').
    exists (events ++ events'). rewrite Htrace', Htrace, <- app_assoc.
    split; [done|]. rewrite List.filter_app, length_app. lia.
  - exists events. split; [done|lia].
Qed.

Lemma runs_at_most_ret {A} (a : A) : runs_at_most 0 (mret a : M A).
Proof. intros st. exists []. by rewrite app_nil_r. Qed.

Lemma runs_at_most_throw {A} (e : Error) : runs_at_most 0 (throw e : M A).
Proof. intros st. exists []. by rewrite app_nil_r. Qed.

Lemma runs_at_most_log (e : Event) :
  is_exec e = false -> runs_at_most 0 (log e).
Proof. intros He st. exists [e]. cbn. by rewrite He. Qed.

Lemma runs_at_most_extend {A} (m : M A) (n : nat) :
  (forall st, exists r events,
      m st = (r, extend st events)
      /\ (length (List.filter is_exec events) <= n)%nat) ->
  runs_at_most n m.
Proof.
  intros H st. destruct (H st) as (r & events & -> & Hcount). by exists events.
Qed.

Lemma recoverThreadId_runs (o : RunnerOptions) (agent : Agent)
    (parsedThreadId : option string) :
  runs_at_most match listSessionsCommand agent with Some _ => 1 | None => 0 end
    (recoverThreadId o agent parsedThreadId).
Proof.
  apply runs_at_most_extend. intros st. unfold recoverThreadId.
  destruct (listSessionsCommand agent) as [[listCommand|e]|].
  - destruct (Js.truthy parsedThreadId); cbn [negb].
    + eexists _, []. rewrite extend_nil. split; [reflexivity|cbn; lia].
    + unfold extend. run_monad.
      destruct (execLocal o _ _ _ _ _) as [listOutput|e]; cbn;
        [destruct (parseSessionList agent) as [parseList|]; cbn;
         [destruct (parseList listOutput) as [resolved|e]; cbn|]|];
        rewrite <- ?app_assoc; eexists _, _; (split; [reflexivity|cbn; lia]).
  - destruct (Js.truthy parsedThreadId); cbn [negb].
    + eexists _, []. rewrite extend_nil. split; [reflexivity|cbn; lia].
    + unfold extend. run_monad. eexists _, _. split; [reflexivity|cbn; lia].
  - eexists _, []. rewrite extend_nil. split; [reflexivity|cbn; lia].
Qed.

Lemma storeThreadId_runs (o : RunnerOptions) (key : string)
    (id : option string) :
  runs_at_most 0 (storeThreadId o key id).
Proof.
  intros st. destruct (storeThreadId_spec o key id st) as (events & -> & Hall).
  exists events. split; [reflexivity|].
  rewrite filter_is_exec_nil; [done|].
  eapply Forall_impl; [exact Hall|]. by intros ? [? _].
Qed.

Lemma checkOutput_runs (parsed : Parsed) (execError : option Error) :
  runs_at_most 0 (checkOutput parsed execError).
Proof.
  unfold checkOutput. destruct execError as [err|]; [|apply runs_at_most_ret].
  destruct (_ && _); [apply runs_at_most_throw|by apply runs_at_most_log].
Qed.

(** The second part of a turn runs the command of the turn first, and at
    most one process more, none when the agent lists no sessions. *)
Lemma completeTurn_runs (o : RunnerOptions) (p : Prepared) (st : RunnerState) :
  exists events,
    trace (completeTurn o p st).2
    = trace st ++ EvExec "bash" ["-lc"; prep_commandToRun p] :: events
    /\ (length (List.filter is_exec events)
        <= match listSessionsCommand (prep_agent p) with
           | Some _ => 1
           | None => 0
           end)%nat.
Proof.
  unfold completeTurn.
  pose proof (runCommand_spec o (prep_commandToRun p) st) as Hrun.
  destruct (runCommand o (prep_commandToRun p) st) as [r st1] eqn:Hfirst.
  injection Hrun as _ ->.
  destruct r as [[output execError]|err].
  - erewrite bind_ok by exact Hfirst. cbn beta iota zeta.
    set (parsed := parseOutput (prep_agent p) output).
    assert (Hrest : runs_at_most
                      (0 + (match listSessionsCommand (prep_agent p) with
                            | Some _ => 1
                            | None => 0
                            end + (0 + 0)))
                      (checkOutput parsed execError ;;
                       parsedThreadId ← recoverThreadId o (prep_agent p)
                                          (parsed_threadId parsed);
                       storeThreadId o (prep_threadKey p) parsedThreadId ;;
                       mret (Js.or_else (parsed_text parsed) output))).
    { apply runs_at_most_bind; [apply checkOutput_runs|]. intros _.
      apply runs_at_most_bind; [apply recoverThreadId_runs|]. intros id.
      apply runs_at_most_bind; [apply storeThreadId_runs|]. intros _.
      apply runs_at_most_ret. }
    destruct (Hrest (extend st [EvExec "bash" ["-lc"; prep_commandToRun p];
                                EvInfo "Agent finished"]))
      as (events & Htrace & Hcount).
    exists (EvInfo "Agent finished" :: events).
    rewrite Htrace. cbn. rewrite <- app_assoc. split; [done|lia].
  - erewrite bind_throw by exact Hfirst. cbn.
    exists [EvInfo "Agent finished"]. split; [done|cbn; lia].
Qed.

(** C1. When the process of a turn fails, the turn returns the reply read
    from the stdout carried by the error if that stdout is usable (not
    blank, and parsed as a record of the agent or giving a text that is not
    blank), and throws the error of the process otherwise: when the error
    carries no stdout, a blank one, or one that gave neither a record nor a
    text. *)
Theorem runAgentForChat_soft_failure
    (o : RunnerOptions) (chatId : Z) (prompt : string) (runOptions : RunOptions)
    (st : RunnerState) (agent : Agent) (err : Error) :
  getAgent o (effectiveAgent o chatId runOptions) = Ok agent ->
  contexts_available o ->
  next_exec o (exec_count st) (Throw err) ->
  let run := runAgentForChat o chatId prompt runOptions st in
  (usable agent err = true ->
     exists stdout,
       err_stdout err = Some stdout /\ run.1 = Ok (replyOf agent stdout))
  /\ (usable agent err = false -> run.1 = Throw err).
Proof.
  intros Hagent Hctx Hexec. cbv zeta.
  destruct (runAgentForChat_spec o chatId prompt runOptions st agent Hagent)
    as (prepared & completed & st0 & _ & _ & _ & Hcount & _ & _ & _ & Hrun).
  destruct (prepareTurn o chatId prompt runOptions st) as [[p|e] st'];
    [|by destruct Hrun as [_ []]].
  destruct Hrun as (-> & Hp & _ & _ & ->).
  destruct (completeTurn_spec o p st0) as (events & _ & _ & _ & Hcomplete).
  rewrite runCommand_spec in Hcomplete. cbn [fst] in Hcomplete.
  rewrite Hcount, Hexec, Hp in Hcomplete. unfold usable.
  destruct (err_stdout err) as [stdout|]; [|by split; [|intros _; apply Hcomplete]].
  destruct (Js.truthy (Some (Js.trim stdout)));
    [|by split; [|intros _; apply Hcomplete]].
  destruct Hcomplete as [Hhard Hsoft]. cbn [andb].
  destruct (parsed_sawJson (parseOutput agent stdout)); cbn [negb andb orb] in *.
  - split; [|done]. intros _. exists stdout. split; [done|].
    by destruct (Hsoft eq_refl) as (? & ? & ? & _ & _ & _ & ? & _).
  - destruct (Js.truthy (Some (Js.trim (parsed_text (parseOutput agent stdout)))));
      cbn [negb] in *.
    + split; [|done]. intros _. exists stdout. split; [done|].
      by destruct (Hsoft eq_refl) as (? & ? & ? & _ & _ & _ & ? & _).
    + split; [done|]. intros _. by apply Hhard.
Qed.


(** C6. The [includeFileInstructions] option with which a turn calls
    [buildPrompt] is true if and only if the resolution of the thread gave no
    session id or the incremented turn count is a multiple of
    [fileInstructionsEvery]; a turn whose bootstrap and memory contexts are
    available makes the call, with that option, and the prompt that
    [buildPrompt] returns for it is the prompt of the command that the turn
    runs: the text that the command decodes and the prompt given to the
    command builder of the agent. *)
Theorem includeFileInstructions_iff
    (o : RunnerOptions) (chatId : Z) (prompt : string) (runOptions : RunOptions)
    (st : RunnerState) (agent : Agent) :
  getAgent o (effectiveAgent o chatId runOptions) = Ok agent ->
  let resolved := resolution o chatId runOptions st in
  let turnCount := turnCountOf o chatId runOptions st in
  let run := runAgentForChat o chatId prompt runOptions st in
  (forall text include,
     EvBuildPrompt text include ∈ added st run.2 ->
     (include = true <->
      Js.truthy (threadId resolved.1) = false
      \/ Nat.divide (fileInstructionsEvery o) turnCount))
  /\ (contexts_available o ->
      exists text include,
        EvBuildPrompt text include ∈ added st run.2
        /\ (include = true <->
            Js.truthy (threadId resolved.1) = false
            \/ Nat.divide (fileInstructionsEvery o) turnCount)
        /\ head (List.filter is_exec (added st run.2))
           = Some (EvExec "bash"
               ["-lc";
                assembled o agent
                  {| req_prompt :=
                       buildPrompt o text (default [] (ro_imagePaths runOptions))
                         (imageDir o) (ro_scriptContext runOptions)
                         (default [] (ro_documentPaths runOptions))
                         (documentDir o) include;
                     req_promptExpression :=
                       Some (String Posix.dquote
                               ("$PROMPT" +:+ String Posix.dquote ""));
                     req_threadId := threadId resolved.1;
                     req_thinking := getGlobalThinking o;
                     req_model :=
                       getGlobalModels o (effectiveAgent o chatId runOptions) |}])).
Proof.
  intros Hagent. cbv zeta.
  assert (Hiff : forall include : bool,
    include = negb (Js.truthy (threadId (resolution o chatId runOptions st).1))
              || is_multiple (turnCountOf o chatId runOptions st)
                   (fileInstructionsEvery o) ->
    (include = true <->
     Js.truthy (threadId (resolution o chatId runOptions st).1) = false
     \/ Nat.divide (fileInstructionsEvery o) (turnCountOf o chatId runOptions st))).
  { intros include ->. unfold turnCountOf.
    rewrite orb_true_iff, negb_true_iff, is_multiple_divide. reflexivity. }
  split.
  - destruct (runAgentForChat_spec o chatId prompt runOptions st agent Hagent)
      as (prepared & completed & st0 & _ & _ & _ & _ & Htrace & _ & Hflag & _).
    rewrite (added_app _ _ _ Htrace).
    intros text include Hin. apply Hiff. exact (Hflag text include Hin).
  - intros Hctx.
    destruct (prepareTurn_spec o chatId prompt runOptions st agent Hagent)
      as (prepared & Hst & Hexec & Hflag & Hok & Havail).
    pose proof (prepareTurn_command o chatId prompt runOptions st agent)
      as Hcommand.
    rewrite runAgentForChat_unfold.
    destruct (prepareTurn o chatId prompt runOptions st) as [[p|e] st0] eqn:Hprep;
      cbn [fst snd] in *;
      [|destruct (Havail Hctx) as [p Hp]; discriminate].
    destruct (completeTurn_runs o p st0) as (events & Htrace & _).
    assert (Hprepared : added st st0 = prepared).
    { apply added_app. by rewrite Hst. }
    assert (Hadded : added st (completeTurn o p st0).2
                     = prepared ++ EvExec "bash" ["-lc"; prep_commandToRun p]
                                   :: events).
    { apply added_app. rewrite Htrace, Hst. cbn. by rewrite <- app_assoc. }
    destruct (Hcommand p st0 Hagent eq_refl) as (text & include & Hin & Hcmd).
    rewrite Hprepared in Hin.
    exists text, include. rewrite Hadded.
    split; [apply elem_of_app; by left|].
    split; [apply Hiff; exact (Hflag text include Hin)|].
    rewrite List.filter_app, (filter_is_exec_nil prepared Hexec). cbn.
    by rewrite Hcmd.
Qed.

(** C10, as the code has it.  A turn whose agent is known sets the turn
    counter of its thread key to one more than it was, whether the turn
    returns or throws; the counter is set when the command of the turn is
    ready and no process has run; a turn that throws leaves the threads map
    as the resolution of the thread left it, which is the map of before the
    turn except for the migration of a legacy entry. *)
Theorem runAgentForChat_counts_turn
    (o : RunnerOptions) (chatId : Z) (prompt : string) (runOptions : RunOptions)
    (st : RunnerState) (agent : Agent) :
  getAgent o (effectiveAgent o chatId runOptions) = Ok agent ->
  let resolved := resolution o chatId runOptions st in
  let key := threadKey resolved.1 in
  let counted :=
    <[key := (default 0 (threadTurns st !! key) + 1)%nat]> (threadTurns st) in
  let run := runAgentForChat o chatId prompt runOptions st in
  threadTurns run.2 = counted
  /\ (forall p st0,
        prepareTurn o chatId prompt runOptions st = (Ok p, st0) ->
        threadTurns st0 = counted /\ exec_count st0 = exec_count st
        /\ run = completeTurn o p st0)
  /\ (forall e, run.1 = Throw e -> threads run.2 = resolved.2).
Proof.
  intros Hagent. cbv zeta.
  destruct (runAgentForChat_spec o chatId prompt runOptions st agent Hagent)
    as (prepared & completed & st0 & _ & Hthreads0 & Hturns0 & Hcount & _
        & Hturns & _ & Hrun).
  split; [by rewrite Hturns, Hturns0|].
  destruct (prepareTurn o chatId prompt runOptions st) as [[p|e'] st'].
  - destruct Hrun as (-> & _ & _ & _ & Hrun). split.
    { intros p' st0' [= <- <-]. by rewrite Hturns0. }
    intros e He. rewrite Hrun in *.
    destruct (completeTurn_spec o p st0) as (events & _ & _ & _ & Hcomplete).
    destruct ((runCommand o (prep_commandToRun p) st0).1)
      as [[output [err|]]|err].
    + destruct Hcomplete as [Hhard Hsoft].
      destruct (negb (parsed_sawJson (parseOutput (prep_agent p) output))
                && negb (Js.truthy (Some (Js.trim (parsed_text
                           (parseOutput (prep_agent p) output)))))).
      * destruct (Hhard eq_refl) as [_ ->]. exact Hthreads0.
      * destruct (Hsoft eq_refl) as (? & ? & ? & _ & _ & _ & Hok & _).
        congruence.
    + destruct Hcomplete as [_ Hsoft].
      destruct (Hsoft I) as (? & ? & ? & _ & _ & _ & Hok & _). congruence.
    + destruct Hcomplete as [_ ->]. exact Hthreads0.
  - destruct Hrun as [-> _]. split; [intros; discriminate|].
    intros e He. exact Hthreads0.
Qed.

End AgentRunner.

(** ** The runner on the wiring *)

Section RunnerOnWiring.

Import Runner Wiring.

Lemma wiring_contexts_available (agent : Agent)
    (execLocal : nat -> string -> list string -> Z -> Z -> result string) :
  contexts_available (options agent execLocal).
Proof. split; intros; eexists; reflexivity. Qed.

Lemma runAgentForChat_soft_failure_witness :
  (runAgentForChat
     (options codexAgent (answering [Throw (commandFailed (Some secondOutput))]))
     42 "hola" noRunOptions (initial ∅)).1
  = Ok "Segunda respuesta"
  /\ (runAgentForChat
        (options codexAgent (answering [Throw (commandFailed (Some "   "))]))
        42 "hola" noRunOptions (initial ∅)).1
     = Throw (commandFailed (Some "   ")).
Proof.
  split.
  - destruct (runAgentForChat_soft_failure
                (options codexAgent
                   (answering [Throw (commandFailed (Some secondOutput))]))
                42 "hola" noRunOptions (initial ∅) codexAgent
                (commandFailed (Some secondOutput)))
      as [Hsoft _].
    + reflexivity.
    + apply wiring_contexts_available.
    + intros argv timeout maxBuffer. reflexivity.
    + destruct Hsoft as (stdout & Hstdout & Hrun); [vm_compute; reflexivity|].
      injection Hstdout as <-. rewrite Hrun. vm_compute; reflexivity.
  - destruct (runAgentForChat_soft_failure
             (options codexAgent (answering [Throw (commandFailed (Some "   "))]))
             42 "hola" noRunOptions (initial ∅) codexAgent
             (commandFailed (Some "   "))) as [_ Hhard].
    + reflexivity.
    + apply wiring_contexts_available.
    + intros argv timeout maxBuffer. reflexivity.
    + apply Hhard. vm_compute; reflexivity.
Defined.


Lemma includeFileInstructions_iff_witness :
  let o := options codexAgent (answering [Ok firstOutput]) in
  let run := runAgentForChat o 12345 "Hola equipo" noRunOptions (initial ∅) in
  exists text,
    EvBuildPrompt text true ∈ added (initial ∅) run.2
    /\ head (List.filter is_exec (added (initial ∅) run.2))
       = Some (EvExec "bash"
           ["-lc";
            assembled o codexAgent
              {| req_prompt := text +:+ LF +:+ "FILE_INSTRUCTIONS";
                 req_promptExpression :=
                   Some (String Posix.dquote
                           ("$PROMPT" +:+ String Posix.dquote ""));
                 req_threadId := None;
                 req_thinking := None;
                 req_model := None |}]).
Proof.
  cbv zeta.
  destruct (includeFileInstructions_iff
              (options codexAgent (answering [Ok firstOutput]))
              12345 "Hola equipo" noRunOptions (initial ∅) codexAgent)
    as [_ Hcall]; [reflexivity|].
  destruct (Hcall (wiring_contexts_available _ _))
    as (text & include & Hin & [_ Hback] & Hhead).
  rewrite Hback in Hin, Hhead by (left; vm_compute; reflexivity).
  exists text. split; [exact Hin|].
  rewrite Hhead. reflexivity.
Defined.

Lemma runAgentForChat_counts_turn_witness :
  let o := options codexAgent (answering []) in
  let run := runAgentForChat o 42 "hola" noRunOptions (initial ∅) in
  run.1 = Throw (commandFailed None)
  /\ threadTurns run.2 = <["42:codex" := 1%nat]> ∅
  /\ threads run.2 = ∅.
Proof.
  cbv zeta.
  destruct (runAgentForChat_counts_turn (options codexAgent (answering []))
              42 "hola" noRunOptions (initial ∅) codexAgent)
    as (Hturns & _ & Hthreads); [reflexivity|].
  split; [vm_compute; reflexivity|].
  split; [rewrite Hturns; vm_compute; reflexivity|].
  rewrite (Hthreads (commandFailed None)); vm_compute; reflexivity.
Defined.

(** C10, counterexample.  A turn on a map whose only entry is a legacy one
    throws the error of its process, and leaves the map changed: the entry
    has moved from the legacy key to the canonical key. *)
Lemma runAgentForChat_failed_turn_changes_threads :
  let o := options codexAgent (answering []) in
  let st := initial {[ "42" := "sess-old" ]} in
  let run := runAgentForChat o 42 "hola" noRunOptions st in
  run.1 = Throw (commandFailed None)
  /\ threads run.2 <> threads st
  /\ threads run.2 !! "42" = None
  /\ threads run.2 !! "42:codex" = Some "sess-old"
  /\ threadTurns run.2 !! "42:codex" = Some 1%nat.
Proof.
  cbv zeta. split; [vm_compute; reflexivity|].
  split; [|repeat split; vm_compute; reflexivity].
  intros H. apply (f_equal (fun m : gmap string string => m !! "42")) in H.
  vm_compute in H. discriminate.
Qed.

(** The end-to-end run of the specification: a first prompt starts a
    thread, whose id is stored; a second prompt resumes it. *)
Example runAgentForChat_thread_continuity :
  let o := options codexAgent (answering [Ok firstOutput; Ok secondOutput]) in
  let first := runAgentForChat o 12345 "Hola equipo" noRunOptions (initial ∅) in
  let second := runAgentForChat o 12345 "again" noRunOptions first.2 in
  first.1 = Ok "Primera respuesta"
  /\ threads first.2 !! "12345:codex" = Some "thread-1"
  /\ second.1 = Ok "Segunda respuesta"
  /\ exists command,
       EvExec "bash" ["-lc"; command] ∈ added first.2 second.2
       /\ Js.includes "codex exec resume 'thread-1' --json --skip-git-repo-check"
            command = true.
Proof.
  cbv zeta. repeat split; try (vm_compute; reflexivity).
  eexists. split; [vm_compute; in_list|vm_compute; reflexivity].
Qed.

End RunnerOnWiring.
(** ** The thread store, further *)

Section ThreadStoreFurther.


(** X1. Resolution is idempotent: whatever the map, a second call for the
    same chat and agent returns the same key and session id with
    [migrated = false], and leaves the map as the first call left it. *)
Theorem resolveThreadId_idempotent
    (threads : gmap string string) (chatId : Z) (agentId : string) :
  let first := resolveThreadId threads chatId agentId in
  resolveThreadId first.2 chatId agentId
  = ({| threadKey := threadKey first.1; threadId := threadId first.1;
        migrated := false |}, first.2).
Proof.
  cbv zeta. unfold resolveThreadId at 2 3 4 5.
  assert (Hne := canonical_key_not_legacy chatId agentId).
  destruct (threads !! buildThreadKey chatId agentId) as [[|c v]|] eqn:Hdirect;
    cbn [Js.truthy].
  - destruct (threads !! getLegacyThreadKey chatId) as [[|c v]|] eqn:Hlegacy;
      cbn [fst snd threadKey threadId].
    + unfold resolveThreadId. by rewrite Hdirect, Hlegacy.
    + apply resolveThreadId_direct; [done|].
      rewrite lookup_delete_ne by done. apply lookup_insert_eq.
    + unfold resolveThreadId. by rewrite Hdirect, Hlegacy.
  - cbn [fst snd threadKey threadId]. by apply resolveThreadId_direct.
  - destruct (threads !! getLegacyThreadKey chatId) as [[|c v]|] eqn:Hlegacy;
      cbn [fst snd threadKey threadId].
    + unfold resolveThreadId. by rewrite Hdirect, Hlegacy.
    + apply resolveThreadId_direct; [done|].
      rewrite lookup_delete_ne by done. apply lookup_insert_eq.
    + unfold resolveThreadId. by rewrite Hdirect, Hlegacy.
Qed.

(** X2. Resolution touches no other conversation: every entry under a key
    that is neither the canonical nor the legacy key of the chat is left as
    it was; and when the canonical key holds a session id the whole map is
    left as it was, a legacy entry included. *)
Theorem resolveThreadId_frame
    (threads : gmap string string) (chatId : Z) (agentId : string) :
  (forall key,
     key <> buildThreadKey chatId agentId ->
     key <> getLegacyThreadKey chatId ->
     (resolveThreadId threads chatId agentId).2 !! key = threads !! key)
  /\ (Js.truthy (threads !! buildThreadKey chatId agentId) = true ->
      resolveThreadId threads chatId agentId
      = ({| threadKey := buildThreadKey chatId agentId;
            threadId := threads !! buildThreadKey chatId agentId;
            migrated := false |}, threads)).
Proof.
  split.
  - intros key Hk1 Hk2. unfold resolveThreadId.
    repeat case_match; cbn [snd]; try done.
    by rewrite lookup_delete_ne, lookup_insert_ne.
  - intros Htruthy. unfold resolveThreadId. by rewrite Htruthy.
Qed.

Lemma clearThreadForAgent_lookup
    (threads : gmap string string) (chatId : Z) (agentId : string) :
  (clearThreadForAgent threads chatId agentId).2 !! buildThreadKey chatId agentId
  = None
  /\ (clearThreadForAgent threads chatId agentId).2 !! getLegacyThreadKey chatId
     = None.
Proof.
  unfold clearThreadForAgent. cbn [snd].
  assert (Hne := canonical_key_not_legacy chatId agentId).
  split; [by rewrite lookup_delete_ne, lookup_delete_eq|apply lookup_delete_eq].
Qed.

(** X3. [clearThreadForAgent] leaves neither the canonical nor the legacy
    entry of the conversation, reports whether one of them was there, and
    leaves every other entry as it was. *)
Theorem clearThreadForAgent_removes
    (threads : gmap string string) (chatId : Z) (agentId : string) :
  let cleared := clearThreadForAgent threads chatId agentId in
  cleared.2 !! buildThreadKey chatId agentId = None
  /\ cleared.2 !! getLegacyThreadKey chatId = None
  /\ (cleared.1 = true <->
      is_Some (threads !! buildThreadKey chatId agentId)
      \/ is_Some (threads !! getLegacyThreadKey chatId))
  /\ (forall key,
        key <> buildThreadKey chatId agentId ->
        key <> getLegacyThreadKey chatId ->
        cleared.2 !! key = threads !! key).
Proof.
  cbv zeta. unfold clearThreadForAgent. cbn [fst snd].
  assert (Hne := canonical_key_not_legacy chatId agentId).
  split; [by rewrite lookup_delete_ne, lookup_delete_eq|].
  split; [apply lookup_delete_eq|]. split.
  - rewrite orb_true_iff, !bool_decide_eq_true, lookup_delete_ne by done.
    reflexivity.
  - intros key Hk1 Hk2. by rewrite !lookup_delete_ne.
Qed.

(** X4. After [clearThreadForAgent] the conversation has no session:
    [resolveThreadId] returns no id with [migrated = false] and changes
    nothing, and a second clearing reports that nothing was removed. *)
Theorem clearThreadForAgent_then_resolve
    (threads : gmap string string) (chatId : Z) (agentId : string) :
  let cleared := (clearThreadForAgent threads chatId agentId).2 in
  resolveThreadId cleared chatId agentId
  = ({| threadKey := buildThreadKey chatId agentId; threadId := None;
        migrated := false |}, cleared)
  /\ clearThreadForAgent cleared chatId agentId = (false, cleared).
Proof.
  cbv zeta.
  destruct (clearThreadForAgent_lookup threads chatId agentId)
    as [Hcanon Hlegacy].
  set (cleared := (clearThreadForAgent threads chatId agentId).2) in *.
  split.
  - unfold resolveThreadId. by rewrite Hcanon, Hlegacy.
  - unfold clearThreadForAgent.
    rewrite (delete_id cleared (buildThreadKey chatId agentId)) by done.
    rewrite (delete_id cleared (getLegacyThreadKey chatId)) by done.
    rewrite Hcanon, Hlegacy. f_equal.
Qed.

End ThreadStoreFurther.

Section ThreadKeys.

Lemma includes_char_cons_eq (a c : ascii) (s : string) :
  Js.includes (String a "") (String c s)
  = Ascii.eqb c a || Js.includes (String a "") s.
Proof.
  simpl. destruct (ascii_dec a c) as [<-|Hne].
  - rewrite Ascii.eqb_refl. by destruct s.
  - assert (Ascii.eqb c a = false) as -> by (apply Ascii.eqb_neq; congruence).
    reflexivity.
Qed.

Lemma includes_colon_cons (c : ascii) (s : string) :
  Js.includes ":" (String c s) = Ascii.eqb c ":" || Js.includes ":" s.
Proof. apply includes_char_cons_eq. Qed.

Lemma no_colon_cons (c : ascii) (s : string) :
  no_colon (String c s) = negb (Ascii.eqb c ":") && no_colon s.
Proof. unfold no_colon. by rewrite includes_colon_cons, negb_orb. Qed.

Lemma pretty_N_char_no_colon (x : N) : Ascii.eqb (pretty_N_char x) ":" = false.
Proof. unfold pretty_N_char. by repeat case_match. Qed.

Lemma pretty_N_go_no_colon (x : N) (s : string) :
  no_colon s = true -> no_colon (pretty_N_go x s) = true.
Proof.
  revert s. induction (N.lt_wf_0 x) as [x _ IH]; intros s Hs.
  destruct (decide (x = 0)%N) as [->|Hx].
  - by rewrite pretty_N_go_0.
  - rewrite pretty_N_go_step by lia. apply IH.
    + apply N.div_lt; lia.
    + by rewrite no_colon_cons, pretty_N_char_no_colon, Hs.
Qed.

Lemma String_of_no_colon (chatId : Z) : no_colon (String_of chatId) = true.
Proof.
  unfold String_of, pretty, pretty_Z. destruct chatId as [|p|p].
  - reflexivity.
  - unfold pretty, pretty_positive, pretty, pretty_N. case_decide; [done|].
    by apply pretty_N_go_no_colon.
  - change ("-" +:+ ?s) with (String "-" s). rewrite no_colon_cons.
    unfold pretty, pretty_positive, pretty, pretty_N. case_decide; [done|].
    by rewrite pretty_N_go_no_colon.
Qed.

Lemma colon_split (c1 c2 a1 a2 : string) :
  no_colon c1 = true -> no_colon c2 = true ->
  c1 +:+ ":" +:+ a1 = c2 +:+ ":" +:+ a2 -> c1 = c2 /\ a1 = a2.
Proof.
  revert c2. induction c1 as [|x c1 IH]; intros [|y c2] H1 H2 Heq.
  - by injection Heq.
  - rewrite no_colon_cons in H2. injection Heq as <- _. done.
  - rewrite no_colon_cons in H1. injection Heq as -> _. done.
  - rewrite no_colon_cons in H1, H2.
    apply andb_prop in H1 as [_ H1]. apply andb_prop in H2 as [_ H2].
    injection Heq as -> Heq. destruct (IH c2 H1 H2 Heq) as [-> ->]. done.
Qed.

Lemma no_colon_app_colon (c a : string) : no_colon (c +:+ ":" +:+ a) = false.
Proof.
  induction c as [|x c IH].
  - rewrite str_app_nil_l. change (":" +:+ a) with (String ":" a).
    by rewrite no_colon_cons.
  - rewrite str_app_cons, no_colon_cons, IH. apply andb_false_r.
Qed.

(** X5. Thread keys do not collide: two conversations have the same
    canonical key only if they are the same chat with the same agent, and
    the canonical key of a conversation is the legacy key of no chat. *)
Theorem buildThreadKey_injective
    (chatId chatId' : Z) (agentId agentId' : string) :
  (buildThreadKey chatId agentId = buildThreadKey chatId' agentId' ->
   chatId = chatId' /\ agentId = agentId')
  /\ buildThreadKey chatId agentId <> getLegacyThreadKey chatId'.
Proof.
  split.
  - unfold buildThreadKey. intros Heq.
    apply colon_split in Heq as [Hchat Hagent]; try apply String_of_no_colon.
    split; [|done]. by apply (inj pretty).
  - intros Heq. apply (f_equal no_colon) in Heq.
    unfold buildThreadKey, getLegacyThreadKey in Heq.
    by rewrite no_colon_app_colon, String_of_no_colon in Heq.
Qed.

End ThreadKeys.
(** ** The codex adapter, further *)

Section CodexFurther.

(** X6. When a prompt expression is supplied it is used verbatim and the
    prompt text has no part in the command: the command is the command line
    of the options followed by the expression. *)
Theorem buildAgentCommand_uses_prompt_expression
    (prompt : string) (options : BuildOptions) (body : string) (c : ascii) :
  opt_promptExpression options = Some (body +:+ String c "") ->
  Js.is_space c = false ->
  buildAgentCommand prompt options
  = "codex exec" +:+ flag_part "resume" (opt_threadId options)
    +:+ " --json --skip-git-repo-check"
    +:+ flag_part "--model" (opt_model options)
    +:+ flag_part "--thinking" (opt_thinking options)
    +:+ " " +:+ body +:+ String c "".
Proof.
  intros Hexpr Hc. rewrite buildAgentCommand_shape, Hexpr.
  assert (resolvePromptValue prompt (Some (body +:+ String c ""))
          = body +:+ String c "") as ->.
  { unfold resolvePromptValue. destruct body; reflexivity. }
  unfold Js.trim. rewrite trimStart_nonspace by reflexivity.
  rewrite <- !str_app_assoc. by apply trimEnd_snoc.
Qed.

Lemma buildAgentCommand_uses_prompt_expression_witness :
  buildAgentCommand "any prompt"
    {| opt_threadId := Some "t-1";
       opt_promptExpression :=
         Some (String Posix.dquote ("$PROMPT" +:+ String Posix.dquote ""));
       opt_model := None; opt_thinking := None |}
  = "codex exec resume 't-1' --json --skip-git-repo-check "
    +:+ String Posix.dquote ("$PROMPT" +:+ String Posix.dquote "").
Proof.
  rewrite (buildAgentCommand_uses_prompt_expression "any prompt" _
             (String Posix.dquote "$PROMPT") Posix.dquote) by reflexivity.
  reflexivity.
Defined.

End CodexFurther.

Section ParserFurther.

Variable parse : string -> option json.

Lemma trimStart_trimmed (s : string) :
  Js.trimStart s = "" \/ starts_nonspace (Js.trimStart s) = true.
Proof.
  induction s as [|c r IH]; [by left|]. simpl.
  destruct (Js.is_space c) eqn:Hc; [exact IH|]. right. simpl. by rewrite Hc.
Qed.

Lemma trimEnd_last (s : string) :
  Js.trimEnd s = ""
  \/ exists c, last_char (Js.trimEnd s) = Some c /\ Js.is_space c = false.
Proof.
  induction s as [|c r IH]; [by left|]. simpl.
  destruct (Js.trimEnd r) as [|d t] eqn:Ht.
  - destruct (Js.is_space c) eqn:Hc; [by left|]. right. by exists c.
  - right. destruct IH as [|IH]; [done|]. exact IH.
Qed.

Lemma trimEnd_first (s : string) (c : ascii) :
  first_char s = Some c -> Js.is_space c = false ->
  first_char (Js.trimEnd s) = Some c.
Proof.
  destruct s as [|d r]; [done|]. intros [= ->] Hc. simpl.
  destruct (Js.trimEnd r); [by rewrite Hc|done].
Qed.

Lemma trim_trimmed (s : string) : trimmed (Js.trim s).
Proof.
  unfold Js.trim.
  destruct (trimStart_trimmed s) as [->|Hstart]; [by left|].
  destruct (Js.trimStart s) as [|c r] eqn:Hs; [done|].
  simpl in Hstart. apply negb_true_iff in Hstart.
  destruct (trimEnd_last (String c r)) as [Hempty|Hlast].
  - by left.
  - right. split; [|exact Hlast]. exists c. split; [|done].
    by apply trimEnd_first.
Qed.

Lemma consume_noise_line (st : LoopState) (line : string) :
  buffer st = "" -> Js.startsWith "{" line = false ->
  consume_line parse st line = st.
Proof. intros Hb Hn. unfold consume_line. by rewrite Hb, Hn. Qed.

Lemma consume_stream (items : list (string * option json)) :
  Forall (stream_line parse) items ->
  forall st : LoopState, buffer st = "" ->
  fold_left (consume_line parse) items.*1 st
  = fold_left consume_payload (omap snd items) st.
Proof.
  induction 1 as [|[line [payload|]] items Hitem _ IH]; intros st Hb.
  - reflexivity.
  - cbn. rewrite (consume_record_line parse st line payload Hb Hitem).
    apply IH, consume_payload_buffer.
  - cbn. destruct Hitem as (Hnoise & _ & _).
    rewrite (consume_noise_line st line Hb Hnoise). by apply IH.
Qed.

Lemma stream_lines_split (items : list (string * option json)) :
  items <> [] -> Forall (stream_line parse) items ->
  split_lines (Js.join LF items.*1) = items.*1.
Proof.
  intros Hne Hall. apply split_lines_join.
  - by destruct items.
  - clear Hne. induction Hall as [|[line [payload|]] items Hitem _ IH];
      constructor; try done.
    + by destruct Hitem as (_ & ? & ? & _).
    + by destruct Hitem as (_ & ? & ?).
Qed.

Lemma parse_stream (items : list (string * option json)) :
  items <> [] -> Forall (stream_line parse) items ->
  parseAgentOutput parse (Js.join LF items.*1)
  = let st := fold_left consume_payload (omap snd items) loop_init in
    {| out_text := Js.trim (Js.join LF (messages st));
       out_threadId := loop_threadId st; out_sawJson := sawJson st |}.
Proof.
  intros Hne Hall. unfold parseAgentOutput, parseCodexJsonOutput.
  rewrite (stream_lines_split items Hne Hall).
  by rewrite (consume_stream items Hall).
Qed.

End ParserFurther.

(** X7. The parser is blind to noise: two outputs whose lines are records
    or noise (lines that do not start with a brace) and that hold the same
    records in the same order parse alike, whatever noise lies between the
    records. *)
Theorem parseAgentOutput_ignores_noise
    (parse : string -> option json)
    (items items' : list (string * option json)) :
  items <> [] -> items' <> [] ->
  Forall (stream_line parse) items -> Forall (stream_line parse) items' ->
  omap snd items = omap snd items' ->
  parseAgentOutput parse (Js.join LF items.*1)
  = parseAgentOutput parse (Js.join LF items'.*1).
Proof.
  intros Hne Hne' Hall Hall' Hsame.
  by rewrite (parse_stream parse items), (parse_stream parse items'), Hsame.
Qed.

Lemma parseAgentOutput_ignores_noise_witness :
  parseAgentOutput Json.parse
    (Js.join LF ("INFO starting" :: two_messages ++ ["done."]))
  = parseAgentOutput Json.parse (Js.join LF two_messages).
Proof.
  pose (first := JObject [("type", JString "item.completed");
                          ("item", JObject [("type", JString "message");
                                            ("text", JString "paso intermedio")])]).
  pose (second := JObject [("type", JString "item.completed");
                           ("item", JObject [("type", JString "message");
                                             ("text", JString "respuesta final")])]).
  apply (parseAgentOutput_ignores_noise Json.parse
           (("INFO starting", None)
              :: zip two_messages [Some first; Some second] ++ [("done.", None)])
           (zip two_messages [Some first; Some second]));
    try discriminate; try reflexivity;
    repeat constructor.
Defined.

(** X8. An output none of whose lines starts with a brace, the empty
    output among them, gives the empty result: no text, no thread id, and no
    JSON seen. *)
Theorem parseAgentOutput_noise_only
    (parse : string -> option json) (output : string) :
  Forall (fun line => Js.startsWith "{" line = false) (split_lines output) ->
  parseAgentOutput parse output
  = {| out_text := ""; out_threadId := None; out_sawJson := false |}.
Proof.
  intros Hall. unfold parseAgentOutput, parseCodexJsonOutput.
  assert (fold_left (consume_line parse) (split_lines output) loop_init
          = loop_init) as ->; [|reflexivity].
  induction Hall as [|line lines Hline _ IH]; [reflexivity|].
  cbn [fold_left]. by rewrite consume_noise_line.
Qed.

Lemma parseAgentOutput_noise_only_witness :
  parseAgentOutput Json.parse ""
  = {| out_text := ""; out_threadId := None; out_sawJson := false |}
  /\ parseAgentOutput Json.parse ("command not found" +:+ LF +:+ "exit 127")
     = {| out_text := ""; out_threadId := None; out_sawJson := false |}.
Proof.
  split; apply parseAgentOutput_noise_only; repeat constructor.
Defined.

(** X11. The reply text of the parser is trimmed: it is empty, or neither
    its first nor its last character is white space. *)
Theorem parseAgentOutput_text_trimmed
    (parse : string -> option json) (output : string) :
  trimmed (out_text (parseAgentOutput parse output)).
Proof. apply trim_trimmed. Qed.

Section ParserRecords.

Variable parse : string -> option json.

Lemma consume_thread_started (st : LoopState) (payload : json) (id : string) :
  describes payload (ThreadStarted id) ->
  consume_payload st payload
  = {| buffer := ""; loop_threadId := Some (JString id);
       messages := messages st; sawJson := true |}.
Proof.
  intros (Htype & Hid & Hne). unfold consume_payload.
  rewrite Htype, Hid. cbn. by destruct id.
Qed.

Lemma consume_described (records : list (json * Record)) :
  Forall (fun r => describes r.1 r.2) records ->
  forall st : LoopState,
  fold_left consume_payload records.*1 st
  = {| buffer := match records with [] => buffer st | _ => "" end;
       loop_threadId :=
         match last (omap thread_of records.*2) with
         | Some id => Some (JString id)
         | None => loop_threadId st
         end;
       messages := messages st ++ omap text_of records.*2;
       sawJson := match records with [] => sawJson st | _ => true end |}.
Proof.
  induction 1 as [|[payload [id|text]] records Hrec _ IH]; intros st.
  - cbn. rewrite app_nil_r. by destruct st.
  - cbn [fmap list_fmap fold_left fst snd omap list_omap thread_of text_of].
    rewrite (consume_thread_started st payload id Hrec), IH. cbn -[last].
    f_equal; try (by destruct records).
    rewrite last_cons. by destruct (last _).
  - cbn [fmap list_fmap fold_left fst snd omap list_omap thread_of text_of].
    rewrite (consume_message_record st payload text Hrec), IH. cbn -[last].
    f_equal; try (by destruct records).
    by rewrite <- app_assoc.
Qed.

End ParserRecords.

(** X9. On an output whose lines are records that start a thread or
    complete a message, the thread id of the result is the id of the last
    record that starts a thread (none if there is none), and the reply is
    made of the texts of the messages only. *)
Theorem parseAgentOutput_thread_id
    (parse : string -> option json)
    (lines : list string) (records : list (json * Record)) :
  lines <> [] ->
  Forall2 (fun line r => record_line parse line r.1 /\ describes r.1 r.2)
          lines records ->
  parseAgentOutput parse (Js.join LF lines)
  = {| out_text := Js.trim (Js.join LF (omap text_of records.*2));
       out_threadId := JString <$> last (omap thread_of records.*2);
       out_sawJson := true |}.
Proof.
  intros Hne Hall.
  assert (Hlines : Forall2 (record_line parse) lines records.*1).
  { clear Hne. induction Hall as [|? ? ? ? [? _]]; constructor; done. }
  assert (Hrecs : Forall (fun r => describes r.1 r.2) records).
  { clear Hne Hlines. induction Hall as [|? ? ? ? [_ ?]]; constructor; done. }
  assert (Hsplit : split_lines (Js.join LF lines) = lines).
  { apply split_lines_join; [done|]. clear Hne Hlines Hrecs.
    induction Hall as [|? ? ? ? [(_ & ? & ? & _) _]]; constructor; done. }
  unfold parseAgentOutput, parseCodexJsonOutput. rewrite Hsplit.
  rewrite (consume_record_lines parse lines records.*1 Hlines) by reflexivity.
  rewrite (consume_described records Hrecs). cbn -[last].
  f_equal; try (by destruct (last (omap thread_of records.*2))).
  destruct records; [|reflexivity]. inversion Hall; subst. done.
Qed.

Lemma parseAgentOutput_thread_id_witness :
  parseAgentOutput Json.parse
    (Js.join LF
       [ Json.text "{`type`:`thread.started`,`thread_id`:`t1`}";
         Json.text "{`type`:`item.completed`,`item`:{`type`:`agent_message`,`text`:`hi`}}";
         Json.text "{`type`:`thread.started`,`thread_id`:`t2`}" ])
  = {| out_text := "hi"; out_threadId := Some (JString "t2");
       out_sawJson := true |}.
Proof.
  apply (parseAgentOutput_thread_id Json.parse _
    [ (JObject [("type", JString "thread.started"); ("thread_id", JString "t1")],
       ThreadStarted "t1");
      (JObject [("type", JString "item.completed");
                ("item", JObject [("type", JString "agent_message");
                                  ("text", JString "hi")])],
       Message "hi");
      (JObject [("type", JString "thread.started"); ("thread_id", JString "t2")],
       ThreadStarted "t2") ]).
  - discriminate.
  - repeat constructor; try reflexivity; try discriminate;
      eexists _, _; repeat split; reflexivity.
Defined.

Section ParserBuffer.

Variable parse : string -> option json.

Lemma includes_char_app (a : ascii) (s t : string) :
  Js.includes (String a "") (s +:+ t)
  = Js.includes (String a "") s || Js.includes (String a "") t.
Proof.
  induction s as [|c s IH].
  - rewrite str_app_nil_l. by destruct t.
  - by rewrite str_app_cons, !includes_char_cons_eq, IH, orb_assoc.
Qed.

Lemma buffers_clean (a : ascii) (pieces : list string) (b : string) :
  Js.includes (String a "") b = false ->
  Forall (fun piece => Js.includes (String a "") piece = false) pieces ->
  Forall (fun text => Js.includes (String a "") text = false) (buffers b pieces).
Proof.
  intros Hb Hall. revert b Hb.
  induction Hall as [|piece pieces Hpiece _ IH]; intros b Hb; [constructor|].
  cbn [buffers].
  assert (Js.includes (String a "") (b +:+ piece) = false)
    by by rewrite includes_char_app, Hb, Hpiece.
  constructor; [done|]. by apply IH.
Qed.

Lemma consume_payload_any_buffer (st : LoopState) (b : string) (payload : json) :
  consume_payload {| buffer := b; loop_threadId := loop_threadId st;
                     messages := messages st; sawJson := sawJson st |} payload
  = consume_payload st payload.
Proof. reflexivity. Qed.

Lemma consume_pieces (payload : json) (pieces : list string) :
  forall (st : LoopState) (c : ascii) (b : string) (init : list string)
         (whole : string),
  buffer st = String c b ->
  buffers (String c b) pieces = init ++ [whole] ->
  Forall (fun text => parse text = None) init ->
  parse whole = Some payload ->
  fold_left (consume_line parse) pieces st = consume_payload st payload.
Proof.
  induction pieces as [|piece pieces IH];
    intros st c b init whole Hb Hbuf Hinit Hwhole.
  - by destruct init.
  - cbn [buffers] in Hbuf. cbn [fold_left].
    unfold consume_line at 2. rewrite Hb.
    destruct init as [|text init].
    + injection Hbuf as <- Hrest. destruct pieces; [|done].
      by rewrite Hwhole.
    + injection Hbuf as <- Hrest. inversion Hinit as [|? ? Hfail Hinit']; subst.
      rewrite Hfail.
      rewrite (IH _ c (b +:+ piece) init whole); try done.
Qed.

End ParserBuffer.

Lemma startsWith_char (a c : ascii) (f : string) :
  Js.startsWith (String a "") (String c f) = true -> c = a.
Proof.
  unfold Js.startsWith. simpl. by destruct (ascii_dec a c) as [->|].
Qed.

Lemma buffers_start (pieces : list string) (c : ascii) (b : string) :
  Forall (fun text => Js.startsWith (String c "") text = true)
         (buffers (String c b) pieces).
Proof.
  revert b. induction pieces as [|piece pieces IH]; intros b; [constructor|].
  cbn [buffers]. rewrite str_app_cons. constructor; [|apply IH].
  unfold Js.startsWith. simpl. destruct (ascii_dec c c); [|done].
  by destruct (b +:+ piece).
Qed.

(** X10. A record broken over several lines is put together again: when
    the first piece begins with a brace, no proper run of the pieces from
    the first parses, and all of them together parse, the output parses as
    the record written on one line. *)
Theorem parseAgentOutput_reassembles
    (parse : string -> option json)
    (first : string) (rest init : list string) (whole : string)
    (payload : json) :
  Forall (fun piece => Js.includes LF piece = false
                       /\ Js.includes (String CR "") piece = false)
         (first :: rest) ->
  Js.startsWith "{" first = true ->
  buffers "" (first :: rest) = init ++ [whole] ->
  Forall (fun text => parse text = None) init ->
  parse whole = Some payload ->
  parseAgentOutput parse (Js.join LF (first :: rest))
  = parseAgentOutput parse whole.
Proof.
  intros Hclean Hstart Hbuf Hinit Hwhole.
  cbn [buffers] in Hbuf. rewrite str_app_nil_l in Hbuf.
  destruct init as [|text init].
  { injection Hbuf as <- Hrest. by destruct rest. }
  injection Hbuf as <- Hrest. inversion Hinit as [|? ? Hfail Hinit']; subst.
  destruct first as [|c f]; [done|].
  assert (Hin : whole ∈ buffers (String c f) rest)
    by (rewrite Hrest; apply elem_of_app; right; apply list_elem_of_here).
  assert (Hclean_of : forall a : ascii,
            Forall (fun piece => Js.includes (String a "") piece = false)
                   (String c f :: rest) ->
            Js.includes (String a "") whole = false).
  { intros a Ha. inversion Ha as [|? ? Hf Hr]; subst.
    pose proof (buffers_clean a rest (String c f) Hf Hr) as Hall.
    rewrite Forall_forall in Hall. by apply Hall. }
  assert (Hlf : Js.includes LF whole = false).
  { apply Hclean_of. eapply Forall_impl; [exact Hclean|]. by intros ? [? _]. }
  assert (Hcr : Js.includes (String CR "") whole = false).
  { apply Hclean_of. eapply Forall_impl; [exact Hclean|]. by intros ? [_ ?]. }
  assert (Hwhole_start : Js.startsWith "{" whole = true).
  { pose proof (buffers_start rest c f) as Hall.
    rewrite Forall_forall in Hall. specialize (Hall whole Hin).
    by rewrite (startsWith_char _ _ _ Hstart) in Hall. }
  unfold parseAgentOutput, parseCodexJsonOutput.
  rewrite (split_lines_join (String c f :: rest)) by done.
  rewrite (split_lines_single whole Hlf Hcr).
  assert (fold_left (consume_line parse) (String c f :: rest) loop_init
          = consume_payload loop_init payload) as ->.
  { cbn [fold_left].
    assert (consume_line parse loop_init (String c f)
            = {| buffer := String c f; loop_threadId := None; messages := [];
                 sawJson := false |}) as ->.
    { unfold consume_line. cbn [buffer loop_init]. by rewrite Hstart, Hfail. }
    by rewrite (consume_pieces parse payload rest _ c f init whole). }
  assert (fold_left (consume_line parse) [whole] loop_init
          = consume_payload loop_init payload) as ->; [|reflexivity].
  cbn [fold_left]. by apply consume_record_line.
Qed.

Lemma parseAgentOutput_reassembles_witness :
  parseAgentOutput Json.parse
    (Js.join LF
       [ Json.text "{`type`:`item.completed`,";
         Json.text "`item`:{`type`:`message`,";
         Json.text "`text`:`hi there`}}" ])
  = parseAgentOutput Json.parse
      (Json.text "{`type`:`item.completed`,`item`:{`type`:`message`,`text`:`hi there`}}").
Proof.
  apply (parseAgentOutput_reassembles Json.parse
           (Json.text "{`type`:`item.completed`,")
           [ Json.text "`item`:{`type`:`message`,";
             Json.text "`text`:`hi there`}}" ]
           [ Json.text "{`type`:`item.completed`,";
             Json.text "{`type`:`item.completed`,`item`:{`type`:`message`," ]
           _
           (JObject [("type", JString "item.completed");
                     ("item", JObject [("type", JString "message");
                                       ("text", JString "hi there")])])).
  - repeat constructor.
  - reflexivity.
  - reflexivity.
  - repeat constructor.
  - reflexivity.
Defined.
(** ** The agent runner, further *)

Ltac step_monad :=
  unfold mbind, Runner.M_bind, mret, Runner.M_ret, Runner.bind, Runner.ret,
    Runner.throw, Runner.lift, Runner.log, Runner.when, Runner.try_catch,
    Runner.finally, Runner.persist, Runner.exec, Runner.emit in *; cbn in *.

Section OneShotRun.

Import Runner.

Lemma added_extend (st : RunnerState) (events : list Event) :
  added st (extend st events) = events.
Proof. by apply added_app. Qed.

Lemma oneShot_runCommand_spec (o : RunnerOptions) (command : string)
    (st : RunnerState) :
  OneShot.runCommand o command st
  = (match execLocal o (exec_count st) "bash" ["-lc"; command]
             (agentTimeoutMs o) (agentMaxBuffer o) with
     | Ok output => Ok (output, None)
     | Throw err =>
         match err_stdout err with
         | Some stdout =>
             if Js.truthy (Some (Js.trim stdout))
             then Ok (stdout, Some err) else Throw err
         | None => Throw err
         end
     end,
     extend st [EvExec "bash" ["-lc"; command]; EvInfo "Agent one-shot finished"]).
Proof.
  unfold OneShot.runCommand, extend. step_monad.
  destruct (execLocal o _ _ _ _ _) as [output|err]; cbn;
    [|destruct (err_stdout err) as [stdout|]; cbn;
      [destruct (Js.trim stdout); cbn|]];
    by rewrite <- app_assoc.
Qed.

(** The one-shot run, by the outcome of its process. *)
Lemma runAgentOneShot_spec (o : RunnerOptions) (globalAgent : string)
    (prompt : option string) (st : RunnerState) (agent : Agent) :
  getAgent o globalAgent = Ok agent ->
  let command := OneShot.commandToRun o agent prompt in
  let run := OneShot.runAgentOneShot o globalAgent prompt st in
  exists warned,
    run.2 = extend st ([EvInfo "Agent one-shot start";
                        EvExec "bash" ["-lc"; command];
                        EvInfo "Agent one-shot finished"] ++ warned)
    /\ (warned = []
        \/ warned = [EvWarn "Agent one-shot exited non-zero; returning stdout"])
    /\ match execLocal o (exec_count st) "bash" ["-lc"; command]
               (agentTimeoutMs o) (agentMaxBuffer o) with
       | Ok output => run.1 = Ok (replyOf agent output)
       | Throw err =>
           if usable agent err
           then exists stdout,
                  err_stdout err = Some stdout
                  /\ run.1 = Ok (replyOf agent stdout)
           else run.1 = Throw err
       end.
Proof.
  intros Hagent. cbv zeta. unfold OneShot.runAgentOneShot.
  erewrite bind_ok by (unfold lift; by rewrite Hagent).
  erewrite bind_ok by reflexivity.
  pose proof (oneShot_runCommand_spec o (OneShot.commandToRun o agent prompt)
                (emit (EvInfo "Agent one-shot start") st)) as Hrun.
  assert (Hcount : exec_count (emit (EvInfo "Agent one-shot start") st)
                   = exec_count st).
  { eapply exec_count_app; [reflexivity|repeat constructor]. }
  rewrite Hcount in Hrun. unfold usable, replyOf.
  destruct (execLocal o _ _ _ _ _) as [output|err].
  - erewrite bind_ok by exact Hrun. cbn.
    exists []. unfold extend. cbn. rewrite <- !app_assoc. cbn. auto.
  - destruct (err_stdout err) as [stdout|].
    2:{ erewrite bind_throw by exact Hrun. exists []. unfold extend. cbn.
        rewrite <- !app_assoc. cbn. auto. }
    destruct (Js.truthy (Some (Js.trim stdout))).
    2:{ erewrite bind_throw by exact Hrun. exists []. unfold extend. cbn.
        rewrite <- !app_assoc. cbn. auto. }
    erewrite bind_ok by exact Hrun. cbn [andb].
    destruct (parsed_sawJson (parseOutput agent stdout)); cbn [negb andb orb].
    + step_monad. eexists [_]. unfold extend. cbn. rewrite <- !app_assoc. cbn.
      split; [reflexivity|]. split; [by right|]. by exists stdout.
    + destruct (Js.truthy (Some (Js.trim (parsed_text (parseOutput agent stdout)))));
        cbn [negb].
      * step_monad. eexists [_]. unfold extend. cbn. rewrite <- !app_assoc. cbn.
        split; [reflexivity|]. split; [by right|]. by exists stdout.
      * step_monad. exists []. unfold extend. cbn. rewrite <- !app_assoc. cbn.
        auto.
Qed.

(** X12. A one-shot run leaves the threads map and the turn counters as
    they are, runs at most one process, and neither persists the threads
    nor builds a prompt. *)
Theorem runAgentOneShot_touches_no_thread
    (o : RunnerOptions) (globalAgent : string) (prompt : option string)
    (st : RunnerState) :
  let run := OneShot.runAgentOneShot o globalAgent prompt st in
  threads run.2 = threads st
  /\ threadTurns run.2 = threadTurns st
  /\ (exec_count run.2 <= exec_count st + 1)%nat
  /\ forall e, e ∈ added st run.2 ->
       e <> EvPersistThreads /\ is_buildPrompt e = false.
Proof.
  cbv zeta. destruct (getAgent o globalAgent) as [agent|err] eqn:Hagent.
  - destruct (runAgentOneShot_spec o globalAgent prompt st agent Hagent)
      as (warned & -> & Hwarned & _).
    rewrite added_extend, exec_count_extend.
    split; [reflexivity|]. split; [reflexivity|].
    destruct Hwarned as [-> | ->]; (split; [cbn; lia|]);
      intros e He; repeat (apply elem_of_cons in He as [->|He]; [done|]);
      by apply elem_of_nil in He.
  - unfold OneShot.runAgentOneShot.
    erewrite bind_throw by (unfold lift; by rewrite Hagent). cbn.
    split; [reflexivity|]. split; [reflexivity|]. split; [lia|].
    intros e He. unfold added in He. rewrite drop_all in He.
    by apply elem_of_nil in He.
Qed.

(** X13. A one-shot run of a known agent runs one process, the command
    that decodes the prompt and runs what the agent builds without a thread
    and without a model.  It returns the reply read from the output of the
    process; when the process fails, the reply read from the stdout carried
    by the error if that stdout is usable, and the error otherwise. *)
Theorem runAgentOneShot_outcome
    (o : RunnerOptions) (globalAgent : string) (prompt : option string)
    (st : RunnerState) (agent : Agent) :
  getAgent o globalAgent = Ok agent ->
  let request := OneShot.request o (OneShot.promptTextOf o agent prompt) in
  let command := assembled o agent request in
  let run := OneShot.runAgentOneShot o globalAgent prompt st in
  List.filter is_exec (added st run.2) = [EvExec "bash" ["-lc"; command]]
  /\ req_threadId request = None /\ req_model request = None
  /\ match execLocal o (exec_count st) "bash" ["-lc"; command]
             (agentTimeoutMs o) (agentMaxBuffer o) with
     | Ok output => run.1 = Ok (replyOf agent output)
     | Throw err =>
         if usable agent err
         then exists stdout,
                err_stdout err = Some stdout
                /\ run.1 = Ok (replyOf agent stdout)
         else run.1 = Throw err
     end.
Proof.
  intros Hagent. cbv zeta.
  destruct (runAgentOneShot_spec o globalAgent prompt st agent Hagent)
    as (warned & -> & Hwarned & Hout).
  rewrite added_extend. split; [by destruct Hwarned as [-> | ->]|].
  split; [reflexivity|]. split; [reflexivity|]. exact Hout.
Qed.

End OneShotRun.
Section RunnerFurther.

Import Runner.

(** X14. With an agent that the registry does not know, a turn and a
    one-shot run throw the error of the registry and leave the state as it
    is: no thread is resolved or migrated, no turn is counted, nothing is
    run or logged. *)
Theorem unknown_agent_stops_the_run
    (o : RunnerOptions) (chatId : Z) (prompt : string) (runOptions : RunOptions)
    (globalAgent : string) (st : RunnerState) (e : Error) :
  (getAgent o (effectiveAgent o chatId runOptions) = Throw e ->
   runAgentForChat o chatId prompt runOptions st = (Throw e, st))
  /\ (getAgent o globalAgent = Throw e ->
      forall text, OneShot.runAgentOneShot o globalAgent text st = (Throw e, st)).
Proof.
  split.
  - intros Hagent. unfold runAgentForChat, prepareTurn.
    unfold effectiveAgent in Hagent. step_monad. by rewrite Hagent.
  - intros Hagent text. unfold OneShot.runAgentOneShot. step_monad.
    by rewrite Hagent.
Qed.

(** X15. A turn runs at most two processes, and at most one when the agent
    lists no sessions; the first is the command that decodes the prompt and
    runs what the agent builds of the prompt of [buildPrompt], of the
    session id that the resolution of the thread gave, and of the model and
    the thinking level of the settings. *)
Theorem runAgentForChat_processes
    (o : RunnerOptions) (chatId : Z) (prompt : string) (runOptions : RunOptions)
    (st : RunnerState) (agent : Agent) :
  getAgent o (effectiveAgent o chatId runOptions) = Ok agent ->
  let resolved := resolution o chatId runOptions st in
  let run := runAgentForChat o chatId prompt runOptions st in
  let processes := List.filter is_exec (added st run.2) in
  (length processes <= match listSessionsCommand agent with Some _ => 2 | None => 1 end)%nat
  /\ (contexts_available o ->
      exists text flag,
        EvBuildPrompt text flag ∈ added st run.2
        /\ head processes
           = Some (EvExec "bash"
               ["-lc";
                assembled o agent
                  {| req_prompt :=
                       buildPrompt o text (default [] (ro_imagePaths runOptions))
                         (imageDir o) (ro_scriptContext runOptions)
                         (default [] (ro_documentPaths runOptions))
                         (documentDir o) flag;
                     req_promptExpression :=
                       Some (String Posix.dquote
                               ("$PROMPT" +:+ String Posix.dquote ""));
                     req_threadId := threadId resolved.1;
                     req_thinking := getGlobalThinking o;
                     req_model :=
                       getGlobalModels o (effectiveAgent o chatId runOptions) |}])).
Proof.
  intros Hagent. cbv zeta.
  destruct (prepareTurn_spec o chatId prompt runOptions st agent Hagent)
    as (prepared & Hst & Hexec & _ & Hok & Havail).
  pose proof (prepareTurn_command o chatId prompt runOptions st agent) as Hcommand.
  rewrite runAgentForChat_unfold.
  destruct (prepareTurn o chatId prompt runOptions st) as [[p|e] st0] eqn:Hprep;
    cbn [fst snd] in *.
  - destruct (Hok p eq_refl) as (Hp & _ & _).
    destruct (completeTurn_runs o p st0) as (events & Htrace & Hcount).
    rewrite Hp in Hcount.
    assert (Hadded : added st (completeTurn o p st0).2
                     = prepared ++ EvExec "bash" ["-lc"; prep_commandToRun p]
                                   :: events).
    { apply added_app. rewrite Htrace, Hst. cbn. by rewrite <- app_assoc. }
    rewrite Hadded, List.filter_app, (filter_is_exec_nil prepared Hexec).
    cbn. split; [destruct (listSessionsCommand agent); lia|].
    intros _. destruct (Hcommand p st0 Hagent eq_refl) as (text & flag & Hin & ->).
    exists text, flag. split; [|reflexivity].
    apply elem_of_app. left.
    assert (Hprepared : added st st0 = prepared).
    { apply added_app. by rewrite Hst. }
    by rewrite <- Hprepared.
  - assert (Hadded : added st st0 = prepared).
    { apply added_app. by rewrite Hst. }
    rewrite Hadded, (filter_is_exec_nil prepared Hexec). cbn.
    split; [destruct (listSessionsCommand agent); lia|].
    intros Hctx. destruct (Havail Hctx) as [p Hp]. discriminate.
Qed.


(** X16. A turn whose bootstrap or memory retrieval fails throws the error
    of the failed collaborator; no prompt is built and no process is run,
    and the turn is counted all the same.  The bootstrap is asked for only
    when the resolution of the thread gave no session id. *)
Theorem runAgentForChat_context_failure
    (o : RunnerOptions) (chatId : Z) (prompt : string) (runOptions : RunOptions)
    (st : RunnerState) (agent : Agent) (e : Error) :
  getAgent o (effectiveAgent o chatId runOptions) = Ok agent ->
  let resolved := resolution o chatId runOptions st in
  let key := threadKey resolved.1 in
  let run := runAgentForChat o chatId prompt runOptions st in
  (Js.truthy (threadId resolved.1) = false
   /\ buildBootstrapContext o key = Throw e)
  \/ ((Js.truthy (threadId resolved.1) = true
       \/ exists text, buildBootstrapContext o key = Ok text)
      /\ buildMemoryRetrievalContext o (retrievalQuery o chatId prompt runOptions)
         = Throw e) ->
  run.1 = Throw e
  /\ Forall (fun ev => is_exec ev = false /\ is_buildPrompt ev = false)
       (added st run.2)
  /\ threadTurns run.2 !! key = Some (turnCountOf o chatId runOptions st).
Proof.
  intros Hagent. cbv zeta.
  unfold turnCountOf, resolution, retrievalQuery, runAgentForChat, prepareTurn.
  unfold effectiveAgent in *.
  destruct (resolveThreadId o (threads st) chatId (ro_topicId runOptions) _)
    as [resolved threads'] eqn:Hres.
  step_monad. rewrite Hagent, Hres. cbn.
  intros [[Hnone Hboot] | [Hsome Hmem]].
  - rewrite Hnone. cbn. 
    destruct (migrated resolved); cbn; destruct (persistThreads o); cbn;
      rewrite Hboot; step_monad; unfold added; cbn;
      rewrite <- ?app_assoc, ?drop_app_length, ?drop_all;
      (split; [reflexivity|]); (split; [repeat constructor|]);
      apply lookup_insert_eq.
  - destruct (migrated resolved); cbn; destruct (persistThreads o); cbn;
      destruct (Js.truthy (threadId resolved)) eqn:Hthread; cbn;
      try (destruct Hsome as [?|[text Hboot]]; [done|rewrite Hboot; cbn]);
      rewrite Hmem; step_monad; unfold added; cbn;
      rewrite <- ?app_assoc, ?drop_app_length, ?drop_all;
      (split; [reflexivity|]); (split; [repeat constructor|]);
      apply lookup_insert_eq.
Qed.

(** X17. A turn on a thread that has a session id does not ask for the
    bootstrap: it goes the same with any other bootstrap. *)
Theorem runAgentForChat_bootstrap_only_without_session
    (o : RunnerOptions) (bootstrap : string -> result string) (chatId : Z)
    (prompt : string) (runOptions : RunOptions) (st : RunnerState) :
  Js.truthy (threadId (resolution o chatId runOptions st).1) = true ->
  runAgentForChat (with_bootstrap o bootstrap) chatId prompt runOptions st
  = runAgentForChat o chatId prompt runOptions st.
Proof.
  unfold resolution, effectiveAgent. intros Hthread.
  unfold runAgentForChat, prepareTurn. step_monad.
  destruct (getAgent o _) as [agent|e]; [|reflexivity]. cbn.
  destruct (resolveThreadId o (threads st) chatId (ro_topicId runOptions) _)
    as [resolved threads'] eqn:Hres.
  cbn in Hthread. rewrite Hthread. cbn.
  destruct (migrated resolved); cbn; destruct (persistThreads o); cbn;
    match goal with
    | |- context [buildMemoryRetrievalContext o ?q] =>
        destruct (buildMemoryRetrievalContext o q)
    end; step_monad; reflexivity.
Qed.



(** What a turn leaves in the threads map when the output of its process,
    or the usable stdout of its failed process, announced a session id. *)
Lemma runAgentForChat_stores_announced
    (o : RunnerOptions) (chatId : Z) (prompt : string) (runOptions : RunOptions)
    (st : RunnerState) (agent : Agent) (outcome : result string)
    (output id : string) :
  getAgent o (effectiveAgent o chatId runOptions) = Ok agent ->
  contexts_available o ->
  next_exec o (exec_count st) outcome ->
  outcome = Ok output
  \/ (exists err, outcome = Throw err /\ err_stdout err = Some output
                  /\ usable agent err = true) ->
  parsed_threadId (parseOutput agent output) = Some id -> id <> "" ->
  let resolved := resolution o chatId runOptions st in
  let run := runAgentForChat o chatId prompt runOptions st in
  run.1 = Ok (replyOf agent output)
  /\ threads run.2 = <[threadKey resolved.1 := id]> resolved.2.
Proof.
  intros Hagent Hctx Hexec Houtcome Hid Hne. cbv zeta.
  destruct (runAgentForChat_spec o chatId prompt runOptions st agent Hagent)
    as (prepared & completed & st0 & _ & Hthreads0 & _ & Hcount & _ & _ & _ & Hrun).
  destruct (prepareTurn o chatId prompt runOptions st) as [[p|e] st'];
    [|by destruct Hrun as [_ []]].
  destruct Hrun as (-> & Hp & Hkey & _ & ->).
  destruct (completeTurn_spec o p st0) as (events & _ & _ & _ & Hcomplete).
  rewrite runCommand_spec in Hcomplete. cbn [fst] in Hcomplete.
  assert (Hstored : forall stored st1 recovery,
            recoverThreadId o agent (parsed_threadId (parseOutput agent output)) st1
            = (Ok stored, extend st1 recovery) ->
            stored = Some id).
  { intros stored st1 recovery Hrec.
    destruct (recoverThreadId_spec o agent
                (parsed_threadId (parseOutput agent output)) st1)
      as (id' & recovery' & Hrec' & _ & Hdirect & _).
    rewrite Hrec in Hrec'. injection Hrec' as <- _.
    rewrite Hdirect; rewrite Hid; [done|by destruct id]. }
  destruct Houtcome as [-> | (err & -> & Hstdout & Husable)].
  - rewrite Hcount, Hexec, Hp, Hkey, Hthreads0 in Hcomplete.
    destruct Hcomplete as [_ Hsoft].
    destruct (Hsoft I) as (stored & st1 & recovery & _ & Hrec & _ & Hreply
                           & Hthreads).
    rewrite (Hstored _ _ _ Hrec) in Hthreads.
    split; [exact Hreply|]. rewrite Hthreads. by destruct id.
  - unfold usable in Husable. rewrite Hstdout in Husable.
    apply andb_true_iff in Husable as [Htrim Huse].
    rewrite Hcount, Hexec, Hstdout, Htrim, Hp, Hkey, Hthreads0 in Hcomplete.
    destruct Hcomplete as [_ Hsoft].
    destruct Hsoft as (stored & st1 & recovery & _ & Hrec & _ & Hreply & Hthreads).
    { rewrite <- negb_orb. by rewrite Huse. }
    rewrite (Hstored _ _ _ Hrec) in Hthreads.
    split; [exact Hreply|]. rewrite Hthreads. by destruct id.
Qed.

(** X18. A turn changes the threads map and the turn counters at its own
    key only: every other key keeps the session id that the resolution of
    the thread left it, and its counter. *)
Theorem runAgentForChat_frame
    (o : RunnerOptions) (chatId : Z) (prompt : string) (runOptions : RunOptions)
    (st : RunnerState) (agent : Agent) (other : string) :
  getAgent o (effectiveAgent o chatId runOptions) = Ok agent ->
  let resolved := resolution o chatId runOptions st in
  let run := runAgentForChat o chatId prompt runOptions st in
  other <> threadKey resolved.1 ->
  threads run.2 !! other = resolved.2 !! other
  /\ threadTurns run.2 !! other = threadTurns st !! other.
Proof.
  intros Hagent. cbv zeta. intros Hother.
  destruct (runAgentForChat_spec o chatId prompt runOptions st agent Hagent)
    as (prepared & completed & st0 & _ & Hthreads0 & Hturns0 & _ & _
        & Hturns & _ & Hrun).
  split; [|by rewrite Hturns, Hturns0, lookup_insert_ne].
  destruct (prepareTurn o chatId prompt runOptions st) as [[p|e'] st'].
  - destruct Hrun as (-> & _ & Hkey & _ & ->).
    destruct (completeTurn_spec o p st0) as (events & _ & _ & _ & Hcomplete).
    rewrite Hkey, Hthreads0 in Hcomplete.
    assert (Hcases : forall stored : option string,
              match stored with
              | Some (String c v) =>
                  <[threadKey (resolution o chatId runOptions st).1 := String c v]>
                    (resolution o chatId runOptions st).2
              | _ => (resolution o chatId runOptions st).2
              end !! other
              = (resolution o chatId runOptions st).2 !! other).
    { intros [[|c v]|]; [done| |done]. by rewrite lookup_insert_ne. }
    destruct ((runCommand o (prep_commandToRun p) st0).1)
      as [[output [err|]]|err].
    + destruct Hcomplete as [Hhard Hsoft].
      destruct (negb (parsed_sawJson (parseOutput (prep_agent p) output))
                && negb (Js.truthy (Some (Js.trim (parsed_text
                           (parseOutput (prep_agent p) output)))))).
      * by destruct (Hhard eq_refl) as [_ ->].
      * destruct (Hsoft eq_refl) as (stored & ? & ? & _ & _ & _ & _ & ->).
        apply Hcases.
    + destruct Hcomplete as [_ Hsoft].
      destruct (Hsoft I) as (stored & ? & ? & _ & _ & _ & _ & ->).
      apply Hcases.
    + by destruct Hcomplete as [_ ->].
  - destruct Hrun as [-> _]. cbn [snd]. by rewrite Hthreads0.
Qed.

(** X19. A failed process whose usable stdout announced a session id is a
    turn like another: the reply is returned and the session id is stored
    under the thread key. *)
Theorem runAgentForChat_soft_failure_stores_session
    (o : RunnerOptions) (chatId : Z) (prompt : string) (runOptions : RunOptions)
    (st : RunnerState) (agent : Agent) (err : Error) (stdout id : string) :
  getAgent o (effectiveAgent o chatId runOptions) = Ok agent ->
  contexts_available o ->
  next_exec o (exec_count st) (Throw err) ->
  err_stdout err = Some stdout ->
  usable agent err = true ->
  parsed_threadId (parseOutput agent stdout) = Some id -> id <> "" ->
  let resolved := resolution o chatId runOptions st in
  let run := runAgentForChat o chatId prompt runOptions st in
  run.1 = Ok (replyOf agent stdout)
  /\ threads run.2 = <[threadKey resolved.1 := id]> resolved.2.
Proof.
  intros Hagent Hctx Hexec Hstdout Husable Hid Hne.
  eapply runAgentForChat_stores_announced; eauto.
Qed.


End RunnerFurther.

(** ** The runner on the wiring, further *)

Section RunnerFurtherOnWiring.

Import Runner Wiring.

Lemma runAgentOneShot_outcome_witness :
  let o := options codexAgent (answering [Ok secondOutput]) in
  (OneShot.runAgentOneShot o "codex" (Some "hola") (initial ∅)).1
  = Ok "Segunda respuesta".
Proof.
  cbv zeta.
  destruct (runAgentOneShot_outcome
              (options codexAgent (answering [Ok secondOutput]))
              "codex" (Some "hola") (initial ∅) codexAgent)
    as (_ & _ & _ & Hout); [reflexivity|].
  change (execLocal _ _ _ _ _ _) with (@Ok string secondOutput) in Hout.
  rewrite Hout. vm_compute. reflexivity.
Defined.

Lemma unknown_agent_stops_the_run_witness :
  let o := options codexAgent (answering [Ok secondOutput]) in
  let runOptions :=
    {| ro_topicId := None; ro_agentId := Some "gemini"; ro_imagePaths := None;
       ro_scriptContext := None; ro_documentPaths := None |} in
  runAgentForChat o 42 "hola" runOptions (initial ∅)
  = (Throw unknownAgent, initial ∅).
Proof.
  cbv zeta.
  destruct (unknown_agent_stops_the_run
              (options codexAgent (answering [Ok secondOutput])) 42 "hola"
              {| ro_topicId := None; ro_agentId := Some "gemini";
                 ro_imagePaths := None; ro_scriptContext := None;
                 ro_documentPaths := None |}
              "gemini" (initial ∅) unknownAgent) as [Hchat _].
  apply Hchat. vm_compute. reflexivity.
Defined.

Lemma runAgentForChat_processes_witness :
  let o := options codexAgent (answering [Ok firstOutput]) in
  let run := runAgentForChat o 12345 "Hola equipo" noRunOptions (initial ∅) in
  (length (List.filter is_exec (added (initial ∅) run.2)) <= 1)%nat.
Proof.
  cbv zeta.
  destruct (runAgentForChat_processes
              (options codexAgent (answering [Ok firstOutput]))
              12345 "Hola equipo" noRunOptions (initial ∅) codexAgent)
    as [Hcount _]; [reflexivity|].
  cbn [listSessionsCommand codexAgent] in Hcount. exact Hcount.
Defined.

Lemma runAgentForChat_context_failure_witness :
  let o := with_bootstrap (options codexAgent (answering [Ok firstOutput]))
             (fun _ => Throw soulUnreadable) in
  let run := runAgentForChat o 42 "hola" noRunOptions (initial ∅) in
  let key := threadKey (resolution o 42 noRunOptions (initial ∅)).1 in
  key = "42:codex"
  /\ run.1 = Throw soulUnreadable
  /\ threadTurns run.2 !! key = Some 1%nat.
Proof.
  cbv zeta.
  destruct (runAgentForChat_context_failure
              (with_bootstrap (options codexAgent (answering [Ok firstOutput]))
                 (fun _ => Throw soulUnreadable))
              42 "hola" noRunOptions (initial ∅) codexAgent soulUnreadable)
    as (Hthrow & _ & Hturns);
    [reflexivity | left; split; vm_compute; reflexivity |].
  split; [vm_compute; reflexivity|]. split; [exact Hthrow|].
  rewrite Hturns. vm_compute. reflexivity.
Defined.

Lemma runAgentForChat_bootstrap_only_without_session_witness :
  let o := options codexAgent (answering [Ok secondOutput]) in
  let st := initial {[ "42:codex" := "sess-1" ]} in
  (runAgentForChat (with_bootstrap o (fun _ => Throw soulUnreadable))
     42 "hola" noRunOptions st).1
  = Ok "Segunda respuesta".
Proof.
  cbv zeta.
  rewrite runAgentForChat_bootstrap_only_without_session
    by (vm_compute; reflexivity).
  vm_compute. reflexivity.
Defined.

Lemma runAgentForChat_frame_witness :
  let o := options codexAgent (answering [Ok firstOutput]) in
  let st := initial {[ "7:codex" := "sess-7" ]} in
  let run := runAgentForChat o 42 "hola" noRunOptions st in
  threads run.2 !! "7:codex" = Some "sess-7".
Proof.
  cbv zeta.
  destruct (runAgentForChat_frame
              (options codexAgent (answering [Ok firstOutput]))
              42 "hola" noRunOptions (initial {[ "7:codex" := "sess-7" ]})
              codexAgent "7:codex") as [Hthreads _];
    [reflexivity | intros H; vm_compute in H; discriminate H |].
  rewrite Hthreads. vm_compute. reflexivity.
Defined.

Lemma runAgentForChat_soft_failure_stores_session_witness :
  let o := options codexAgent
             (answering [Throw (commandFailed (Some firstOutput))]) in
  let run := runAgentForChat o 42 "hola" noRunOptions (initial ∅) in
  run.1 = Ok "Primera respuesta"
  /\ threads run.2 !! "42:codex" = Some "thread-1".
Proof.
  cbv zeta.
  destruct (runAgentForChat_soft_failure_stores_session
              (options codexAgent
                 (answering [Throw (commandFailed (Some firstOutput))]))
              42 "hola" noRunOptions (initial ∅) codexAgent
              (commandFailed (Some firstOutput)) firstOutput "thread-1")
    as [Hreply Hthreads];
    [ reflexivity | apply wiring_contexts_available
    | intros argv timeout maxBuffer; reflexivity | reflexivity
    | vm_compute; reflexivity | vm_compute; reflexivity | discriminate |].
  rewrite Hreply, Hthreads. split; vm_compute; reflexivity.
Defined.


End RunnerFurtherOnWiring.

(** ** The memory service *)

Section MemoryService.

Import Memory.

Local Open Scope nat_scope.

Lemma maybeAutoCurateMemory_step (every : nat) (st : MemoryState) :
  eventsSinceCurate st < Nat.max 1 every ->
  let st' := maybeAutoCurateMemory every st in
  eventsSinceCurate st' = (eventsSinceCurate st + 1) mod Nat.max 1 every
  /\ curationsScheduled st'
     = curationsScheduled st + (eventsSinceCurate st + 1) / Nat.max 1 every
  /\ appended st' = appended st /\ warnings st' = warnings st.
Proof.
  intros Hlt. cbv zeta. unfold maybeAutoCurateMemory.
  destruct (Nat.ltb_spec (eventsSinceCurate st + 1) every) as [Hnext|Hnext]; cbn.
  - rewrite Nat.mod_small, Nat.div_small by lia. repeat split; lia.
  - assert (Heq : eventsSinceCurate st + 1 = Nat.max 1 every) by lia.
    rewrite Heq, Nat.Div0.mod_same, Nat.div_same by lia. repeat split; lia.
Qed.

Lemma count_next (c n m : nat) :
  0 < m ->
  (c + S n) mod m = ((c + n) mod m + 1) mod m
  /\ (c + S n) / m = (c + n) / m + ((c + n) mod m + 1) / m.
Proof.
  intros Hm.
  pose proof (Nat.div_mod_eq (c + n) m) as Hdiv.
  pose proof (Nat.mod_upper_bound (c + n) m ltac:(lia)) as Hup.
  destruct (Nat.lt_ge_cases ((c + n) mod m + 1) m) as [Hlt|Hge].
  - rewrite (Nat.mod_small _ _ Hlt), (Nat.div_small _ _ Hlt). split.
    + symmetry. apply (Nat.mod_unique _ _ ((c + n) / m)); lia.
    + symmetry. apply (Nat.div_unique _ _ _ ((c + n) mod m + 1)); lia.
  - assert (Heq : (c + n) mod m + 1 = m) by lia.
    rewrite Heq, Nat.Div0.mod_same, Nat.div_same by lia. split.
    + symmetry. apply (Nat.mod_unique _ _ ((c + n) / m + 1)); lia.
    + symmetry. apply (Nat.div_unique _ _ _ 0); lia.
Qed.

(** X21. The counter of memory events counts modulo [memoryCurateEvery]:
    after [n] calls of [maybeAutoCurateMemory] from a counter [c] below the
    period, the counter is [(c + n) mod every] and [(c + n) / every]
    curations more have been scheduled; a period of zero counts as one,
    every call scheduling a curation. *)
Theorem maybeAutoCurateMemory_every (every n : nat) (st : MemoryState) :
  eventsSinceCurate st < Nat.max 1 every ->
  let st' := Nat.iter n (maybeAutoCurateMemory every) st in
  eventsSinceCurate st' = (eventsSinceCurate st + n) mod Nat.max 1 every
  /\ curationsScheduled st'
     = curationsScheduled st + (eventsSinceCurate st + n) / Nat.max 1 every.
Proof.
  intros Hlt. cbv zeta. induction n as [|n [IHc IHs]].
  - cbn. rewrite Nat.add_0_r, Nat.mod_small, Nat.div_small by lia. lia.
  - rewrite Nat.iter_succ.
    destruct (maybeAutoCurateMemory_step every
                (Nat.iter n (maybeAutoCurateMemory every) st))
      as (Hc & Hs & _).
    { rewrite IHc. apply Nat.mod_upper_bound. lia. }
    destruct (count_next (eventsSinceCurate st) n (Nat.max 1 every)) as [Hm Hd];
      [lia|].
    rewrite Hc, Hs, IHc, IHs, Hm, Hd. lia.
Qed.

Lemma maybeAutoCurateMemory_every_witness :
  let st := {| eventsSinceCurate := 1; curationsScheduled := 0;
               appended := 0; warnings := 0 |} in
  eventsSinceCurate (Nat.iter 7 (maybeAutoCurateMemory 3) st) = 2
  /\ curationsScheduled (Nat.iter 7 (maybeAutoCurateMemory 3) st) = 2.
Proof.
  cbv zeta.
  destruct (maybeAutoCurateMemory_every 3 7
              {| eventsSinceCurate := 1; curationsScheduled := 0;
                 appended := 0; warnings := 0 |}) as [Hc Hs]; [cbn; lia|].
  rewrite Hc, Hs. split; reflexivity.
Defined.

(** X22. Only the memory events that were appended count towards the
    curation: after a sequence of calls of [captureMemoryEvent], the
    appended events and the warnings add up to the calls, a call whose
    append failed logs a warning and leaves the counter, and the counter
    and the curations scheduled are those of as many calls of
    [maybeAutoCurateMemory] as appends succeeded. *)
Theorem captureMemoryEvent_counts_appended
    (every : nat) (outcomes : list bool) (st : MemoryState) :
  eventsSinceCurate st < Nat.max 1 every ->
  let st' := fold_left (captureMemoryEvent every) outcomes st in
  let succeeded := length (List.filter (fun ok : bool => ok) outcomes) in
  appended st' = appended st + succeeded
  /\ warnings st' + succeeded = warnings st + length outcomes
  /\ eventsSinceCurate st'
     = (eventsSinceCurate st + succeeded) mod Nat.max 1 every
  /\ curationsScheduled st'
     = curationsScheduled st
       + (eventsSinceCurate st + succeeded) / Nat.max 1 every.
Proof.
  cbv zeta. revert st.
  induction outcomes as [|[|] outcomes IH] using rev_ind; intros st Hlt.
  - cbn. rewrite Nat.add_0_r, Nat.mod_small, Nat.div_small by lia. lia.
  - rewrite fold_left_app, List.filter_app, !length_app. cbn.
    destruct (IH st Hlt) as (Ha & Hw & Hc & Hs).
    set (st1 := fold_left (captureMemoryEvent every) outcomes st) in *.
    destruct (maybeAutoCurateMemory_step every
                {| eventsSinceCurate := eventsSinceCurate st1;
                   curationsScheduled := curationsScheduled st1;
                   appended := S (appended st1); warnings := warnings st1 |})
      as (Hc' & Hs' & Ha' & Hw').
    { cbn. rewrite Hc. apply Nat.mod_upper_bound. lia. }
    cbn in Hc', Hs', Ha', Hw'.
    destruct (count_next (eventsSinceCurate st)
                (length (List.filter (fun ok : bool => ok) outcomes))
                (Nat.max 1 every)) as [Hm Hd]; [lia|].
    unfold captureMemoryEvent.
    rewrite Hc', Hs', Ha', Hw', Hc, Hs.
    replace (length (List.filter (fun ok : bool => ok) outcomes) + 1)
      with (S (length (List.filter (fun ok : bool => ok) outcomes))) by lia.
    rewrite Hm, Hd. lia.
  - rewrite fold_left_app, List.filter_app, !length_app. cbn.
    destruct (IH st Hlt) as (Ha & Hw & Hc & Hs).
    rewrite !Nat.add_0_r. lia.
Qed.

Lemma captureMemoryEvent_counts_appended_witness :
  let st := {| eventsSinceCurate := 0; curationsScheduled := 0;
               appended := 0; warnings := 0 |} in
  fold_left (captureMemoryEvent 3) [true; false; true; true; false; true] st
  = {| eventsSinceCurate := 1; curationsScheduled := 1;
       appended := 4; warnings := 2 |}.
Proof.
  cbv zeta.
  destruct (captureMemoryEvent_counts_appended 3
              [true; false; true; true; false; true]
              {| eventsSinceCurate := 0; curationsScheduled := 0;
                 appended := 0; warnings := 0 |})
    as (Ha & Hw & Hc & Hs); [cbn; lia|].
  destruct (fold_left _ _ _) as [c s a w]. cbn in *. f_equal; lia.
Defined.

End MemoryService.
(** ** The menus of the settings commands *)

Section MenuStrings.

Import Settings.

Lemma substring_length (n : nat) (s : string) :
  String.length (substring 0 n s) = Nat.min n (String.length s).
Proof.
  revert s. induction n as [|n IH]; intros [|c s]; cbn; try reflexivity.
  by rewrite IH.
Qed.

Lemma substring_app (n : nat) (s t : string) :
  (n <= String.length s)%nat -> substring 0 n (s +:+ t) = substring 0 n s.
Proof.
  revert s. induction n as [|n IH]; intros [|c s] Hn; cbn in *; try lia.
  - by destruct t.
  - reflexivity.
  - rewrite str_app_cons. cbn. rewrite IH by lia. reflexivity.
Qed.

Lemma substring_all (n : nat) (s : string) :
  (String.length s <= n)%nat -> substring 0 n s = s.
Proof.
  revert s. induction n as [|n IH]; intros [|c s] Hn; cbn in *;
    try reflexivity; try lia.
  rewrite IH by lia. reflexivity.
Qed.

Lemma substring_prefix (n : nat) (s : string) :
  exists rest, s = substring 0 n s +:+ rest.
Proof.
  revert s. induction n as [|n IH]; intros [|c s]; cbn.
  - by exists "".
  - by exists (String c s).
  - by exists "".
  - destruct (IH s) as [rest Hrest]. exists rest.
    rewrite str_app_cons. by f_equal.
Qed.

Lemma trimEnd_prefix (s : string) : exists rest, s = Js.trimEnd s +:+ rest.
Proof.
  induction s as [|c s [rest IH]]; [by exists ""|]. cbn.
  destruct (Js.trimEnd s) as [|d t] eqn:Ht.
  - destruct (Js.is_space c); [by exists (String c s)|].
    exists rest. rewrite str_app_cons. f_equal. by rewrite IH at 1.
  - exists rest. rewrite str_app_cons. f_equal. exact IH.
Qed.

Lemma tidy_from_weaken (b : bool) (s : string) :
  tidy_from b s = true -> tidy_from false s = true.
Proof.
  destruct s as [|c s]; [done|]. cbn. destruct (Js.is_space c); [|done].
  destruct b; [|done]. by rewrite andb_false_r.
Qed.

Lemma tidy_collapse_from (b : bool) (s : string) :
  tidy_from b (collapse_from b s) = true.
Proof.
  revert b. induction s as [|c s IH]; intros b; [reflexivity|]. cbn.
  destruct (Js.is_space c) eqn:Hc.
  - destruct b; [apply IH|]. cbn. apply IH.
  - cbn. rewrite Hc. apply IH.
Qed.

Lemma collapse_from_tidy (b : bool) (s : string) :
  tidy_from b s = true -> collapse_from b s = s.
Proof.
  revert b. induction s as [|c s IH]; intros b; [reflexivity|]. cbn.
  destruct (Js.is_space c) eqn:Hc.
  - intros [[Heq Hb]%andb_prop Hs]%andb_prop.
    apply negb_true_iff in Hb as ->. apply Ascii.eqb_eq in Heq as ->.
    by rewrite (IH true Hs).
  - intros Hs. by rewrite (IH false Hs).
Qed.

Lemma tidy_from_app (b : bool) (s t : string) :
  tidy_from b (s +:+ t) = tidy_from b s && tidy_from (ends_space b s) t.
Proof.
  revert b. induction s as [|c s IH]; intros b; [reflexivity|].
  rewrite str_app_cons. cbn. destruct (Js.is_space c).
  - rewrite IH. by rewrite !andb_assoc.
  - apply IH.
Qed.

Lemma ends_space_app (b : bool) (s t : string) :
  ends_space b (s +:+ t) = ends_space (ends_space b s) t.
Proof.
  revert b. induction s as [|c s IH]; intros b; [reflexivity|].
  rewrite str_app_cons. cbn. apply IH.
Qed.

Lemma tidy_from_prefix (b : bool) (s t : string) :
  tidy_from b (s +:+ t) = true -> tidy_from b s = true.
Proof. rewrite tidy_from_app. by intros [? _]%andb_prop. Qed.

Lemma tidy_trimStart (b : bool) (s : string) :
  tidy_from b s = true -> tidy (Js.trimStart s) = true.
Proof.
  unfold tidy. revert b. induction s as [|c s IH]; intros b; [done|].
  cbn. destruct (Js.is_space c) eqn:Hc.
  - intros [_ Hs]%andb_prop. by apply (IH true).
  - intros Hs. cbn. by rewrite Hc.
Qed.

Lemma tidy_trim (s : string) : tidy s = true -> tidy (Js.trim s) = true.
Proof.
  intros Hs. unfold Js.trim.
  pose proof (tidy_trimStart false s Hs) as Hstart. unfold tidy in *.
  destruct (trimEnd_prefix (Js.trimStart s)) as [rest Hrest].
  rewrite Hrest in Hstart. by apply tidy_from_prefix in Hstart.
Qed.

Lemma trimEnd_id (b : bool) (s : string) :
  s <> "" -> ends_space b s = false -> Js.trimEnd s = s.
Proof.
  revert b. induction s as [|c s IH]; intros b Hne; [done|]. cbn.
  destruct s as [|d s].
  - cbn. by intros ->.
  - intros Hend. by rewrite (IH (Js.is_space c)).
Qed.

Lemma trim_id (s : string) :
  starts_nonspace s = true -> ends_space false s = false -> Js.trim s = s.
Proof.
  intros Hstart Hend. unfold Js.trim. rewrite trimStart_nonspace by done.
  apply (trimEnd_id false); [by destruct s|done].
Qed.

Lemma last_char_ends_space (b : bool) (s : string) (c : ascii) :
  last_char s = Some c -> ends_space b s = Js.is_space c.
Proof.
  revert b. induction s as [|d s IH]; intros b; [done|]. cbn.
  destruct s as [|e s]; [by intros [= ->]|]. apply IH.
Qed.

(** A trimmed text is empty, or begins and ends with no white space. *)
Lemma trim_ends (s : string) :
  Js.trim s = ""
  \/ starts_nonspace (Js.trim s) = true /\ ends_space false (Js.trim s) = false.
Proof.
  destruct (trim_trimmed s) as [->|[(c & Hc & Hspace) (d & Hd & Hdspace)]];
    [by left|]. right. split.
  - destruct (Js.trim s); [done|]. injection Hc as ->. cbn. by rewrite Hspace.
  - by rewrite (last_char_ends_space _ _ d).
Qed.

Lemma no_space_tidy (b : bool) (s : string) :
  no_space s = true ->
  tidy_from b s = true /\ (s <> "" -> ends_space b s = false).
Proof.
  revert b. induction s as [|c s IH]; intros b; [done|]. cbn.
  intros [Hc%negb_true_iff Hs]%andb_prop. rewrite Hc.
  destruct (IH false Hs) as [Htidy Hend]. split; [done|]. intros _.
  destruct s; [done|]. by apply Hend.
Qed.

Lemma pretty_N_char_no_space (x : N) : Js.is_space (pretty_N_char x) = false.
Proof. unfold pretty_N_char. by repeat case_match. Qed.

Lemma pretty_N_go_no_space (x : N) (s : string) :
  no_space s = true -> no_space (pretty_N_go x s) = true.
Proof.
  revert s. induction (N.lt_wf_0 x) as [x _ IH]; intros s Hs.
  destruct (decide (x = 0)%N) as [->|Hx].
  - by rewrite pretty_N_go_0.
  - rewrite pretty_N_go_step by lia. apply IH.
    + apply N.div_lt; lia.
    + cbn. by rewrite pretty_N_char_no_space, Hs.
Qed.

Lemma pretty_N_go_nonempty (x : N) (s : string) :
  s <> "" -> pretty_N_go x s <> "".
Proof.
  revert s. induction (N.lt_wf_0 x) as [x _ IH]; intros s Hs.
  destruct (decide (x = 0)%N) as [->|Hx].
  - by rewrite pretty_N_go_0.
  - rewrite pretty_N_go_step by lia. apply IH; [apply N.div_lt; lia|done].
Qed.

Lemma pretty_Z_no_space (i : Z) : no_space (pretty i) = true /\ pretty i <> "".
Proof.
  unfold pretty, pretty_Z. destruct i as [|p|p].
  - done.
  - unfold pretty, pretty_positive, pretty, pretty_N. case_decide; [done|].
    split; [by apply pretty_N_go_no_space|].
    rewrite pretty_N_go_step by lia. by apply pretty_N_go_nonempty.
  - change ("-" +:+ ?s) with (String "-" s). split; [|done]. cbn.
    unfold pretty, pretty_positive, pretty, pretty_N. case_decide; [done|].
    by apply pretty_N_go_no_space.
Qed.

End MenuStrings.

Section MenuLabels.

Import Settings.

Lemma slice_to_prefix (n : Z) (text : string) :
  0 <= n <= Z.of_nat (String.length text) ->
  slice_to n text = substring 0 (Z.to_nat n) text.
Proof.
  intros Hn. unfold slice_to.
  destruct (Z.ltb_spec n 0) as [?|_]; [lia|]. by rewrite Z.min_l by lia.
Qed.

(** What [sanitizeButtonText] returns for a bound of three or more: a text
    of single spaces, without white space at either end, within the
    bound. *)
Lemma sanitizeButtonText_shape (value : string) (max : Z) :
  3 <= max ->
  let text := sanitizeButtonText value max in
  tidy text = true
  /\ (text = ""
      \/ starts_nonspace text = true /\ ends_space false text = false)
  /\ Z.of_nat (String.length text) <= max.
Proof.
  intros Hmax. cbv zeta. unfold sanitizeButtonText.
  pose proof (tidy_trim (collapse value) (tidy_collapse_from false value)) as Htidy.
  pose proof (trim_ends (collapse value)) as Hends.
  set (t := Js.trim (collapse value)) in *.
  destruct (Z.leb_spec (Z.of_nat (String.length t)) max) as [Hle|Hgt];
    [done|].
  rewrite slice_to_prefix by lia.
  destruct (substring_prefix (Z.to_nat (max - 3)) t) as [rest Hrest].
  set (a := substring 0 (Z.to_nat (max - 3)) t) in *.
  assert (Ha : tidy_from false a = true).
  { unfold tidy in Htidy. rewrite Hrest in Htidy.
    by apply tidy_from_prefix in Htidy. }
  split; [|split].
  - unfold tidy. rewrite tidy_from_app, Ha. by destruct (ends_space false a).
  - right. split.
    + destruct Hends as [Hempty|[Hstart _]]; [rewrite Hempty in Hgt; cbn in Hgt; lia|].
      destruct a as [|c a'] eqn:Heqa.
      * reflexivity.
      * rewrite Hrest in Hstart. by rewrite str_app_cons in *.
    + rewrite ends_space_app. by destruct (ends_space false a).
  - rewrite str_length_app. unfold a. rewrite substring_length. cbn. lia.
Qed.

(** X24. For a bound of three or more, [sanitizeButtonText] returns a text
    within the bound, whose white space is single spaces with none at
    either end, and that it leaves as it is when given it again. *)
Theorem sanitizeButtonText_bounded (value : string) (max : Z) :
  3 <= max ->
  let text := sanitizeButtonText value max in
  Z.of_nat (String.length text) <= max
  /\ tidy text = true
  /\ trimmed text
  /\ sanitizeButtonText text max = text.
Proof.
  intros Hmax. cbv zeta.
  destruct (sanitizeButtonText_shape value max Hmax) as (Htidy & Hends & Hlen).
  set (text := sanitizeButtonText value max) in *.
  assert (Hsame : Js.trim (collapse text) = text).
  { unfold collapse. rewrite collapse_from_tidy by done.
    destruct Hends as [->|[Hstart Hend]]; [reflexivity|by apply trim_id]. }
  split; [done|]. split; [done|]. split.
  - rewrite <- Hsame. apply trim_trimmed.
  - unfold sanitizeButtonText at 1. rewrite Hsame.
    by destruct (Z.leb_spec (Z.of_nat (String.length text)) max); [|lia].
Qed.

Lemma sanitizeButtonText_bounded_witness :
  sanitizeButtonText "  un   proyecto   con   nombre  " 12 = "un proyec..."
  /\ sanitizeButtonText "un proyec..." 12 = "un proyec...".
Proof.
  destruct (sanitizeButtonText_bounded "  un   proyecto   con   nombre  " 12)
    as (_ & _ & _ & Hsame); [lia|].
  assert (Hvalue : sanitizeButtonText "  un   proyecto   con   nombre  " 12
                   = "un proyec...") by (vm_compute; reflexivity).
  rewrite Hvalue in Hsame. by split.
Defined.

(** The candidates of a label of 41 characters or more are one text. *)
Lemma candidate_stuck (x : string) (i : Z) :
  tidy x = true -> starts_nonspace x = true -> ends_space false x = false ->
  (41 <= String.length x)%nat ->
  candidate x i = substring 0 41 x +:+ "...".
Proof.
  intros Htidy Hstart Hend Hlen. unfold candidate, sanitizeButtonText.
  destruct (pretty_Z_no_space i) as [Hdigits Hne].
  set (text := x +:+ " (" +:+ pretty i +:+ ")").
  assert (Htext : Js.trim (collapse text) = text).
  { assert (Htidy' : tidy text = true).
    { unfold tidy in *. unfold text. rewrite tidy_from_app, Htidy, Hend.
      change (" (" +:+ ?s) with (String " " (String "(" s)). cbn.
      rewrite tidy_from_app.
      destruct (no_space_tidy false (pretty i) Hdigits) as [-> Hend'].
      rewrite Hend' by done. reflexivity. }
    unfold collapse. rewrite collapse_from_tidy by done.
    unfold Js.trim. rewrite trimStart_nonspace
      by (by apply starts_nonspace_app).
    unfold text. rewrite <- !str_app_assoc. by apply trimEnd_snoc. }
  rewrite Htext.
  assert (Hlong : (45 <= String.length text)%nat).
  { unfold text. rewrite !str_length_app. cbn.
    destruct (pretty i); [done|]. cbn. lia. }
  destruct (Z.leb_spec (Z.of_nat (String.length text)) 44) as [?|_]; [lia|].
  rewrite slice_to_prefix by lia. f_equal.
  change (Z.to_nat (44 - 3)) with 41%nat. unfold text.
  by rewrite substring_app.
Qed.

Lemma uniqueMenuLabel_loop_fresh (fuel : nat) (trimmed : string)
    (used : gset string) (i : Z) (label : string) (used' : gset string) :
  uniqueMenuLabel_loop fuel trimmed used i = Some (label, used') ->
  (label ∉ used) /\ (used' = {[ label ]} ∪ used)
  /\ (String.length label <= 44)%nat.
Proof.
  revert i. induction fuel as [|fuel IH]; intros i; [done|]. cbn.
  case_bool_decide as Hin; [apply IH|]. intros [= <- <-].
  split; [done|]. split; [done|].
  destruct (sanitizeButtonText_shape
              (trimmed +:+ " (" +:+ pretty i +:+ ")") 44) as (_ & _ & Hlen);
    [lia|]. unfold candidate. lia.
Qed.

Lemma uniqueMenuLabel_some (fuel : nat) (base : string) (used : gset string)
    (label : string) (used' : gset string) :
  uniqueMenuLabel fuel base used = Some (label, used') ->
  (label ∉ used) /\ (used' = {[ label ]} ∪ used)
  /\ (String.length label <= 44)%nat
  /\ sanitizeButtonText base 44 ∈ used'.
Proof.
  unfold uniqueMenuLabel. case_bool_decide as Hin.
  - intros Hloop.
    destruct (uniqueMenuLabel_loop_fresh _ _ _ _ _ _ Hloop) as (? & -> & ?).
    repeat split; [done..|]. apply elem_of_union_r, Hin.
  - intros [= <- <-]. split; [done|]. split; [done|].
    split; [|apply elem_of_union_l, elem_of_singleton; reflexivity].
    destruct (sanitizeButtonText_shape base 44) as (_ & _ & Hlen); lia.
Qed.

(** X25. The label that [uniqueMenuLabel] returns is not among the used
    labels, has at most 44 characters, and is the one label added to the
    set; a base whose sanitized text is not used gets that text at once;
    so the loop can fail to return only for a base whose text is used. *)
Theorem uniqueMenuLabel_fresh (fuel : nat) (base : string) (used : gset string) :
  match uniqueMenuLabel fuel base used with
  | Some (label, used') =>
      (label ∉ used) /\ (used' = {[ label ]} ∪ used)
      /\ (String.length label <= 44)%nat
      /\ (sanitizeButtonText base 44 ∉ used ->
          label = sanitizeButtonText base 44)
  | None => sanitizeButtonText base 44 ∈ used
  end.
Proof.
  destruct (uniqueMenuLabel fuel base used) as [[label used']|] eqn:Hsome.
  - destruct (uniqueMenuLabel_some _ _ _ _ _ Hsome) as (? & ? & ? & _).
    repeat split; [done..|]. intros Hfree. unfold uniqueMenuLabel in Hsome.
    rewrite bool_decide_eq_false_2 in Hsome by done. by injection Hsome.
  - unfold uniqueMenuLabel in Hsome. by case_bool_decide.
Qed.

Lemma uniqueMenuLabel_loop_stuck (fuel : nat) (trimmed : string)
    (used : gset string) (i : Z) :
  (forall j, candidate trimmed j ∈ used) ->
  uniqueMenuLabel_loop fuel trimmed used i = None.
Proof.
  intros Hall. revert i. induction fuel as [|fuel IH]; intros i; [done|].
  cbn. rewrite bool_decide_eq_true_2 by apply Hall. apply IH.
Qed.

(** X26. When the sanitized text of a base has 41 characters or more, all
    the candidates of the loop are one text, its first 41 characters
    followed by three dots; if the text and that candidate are both used,
    [uniqueMenuLabel] returns within no number of iterations. *)
Theorem uniqueMenuLabel_never_returns
    (base : string) (used : gset string) (fuel : nat) :
  let trimmed := sanitizeButtonText base 44 in
  (41 <= String.length trimmed)%nat ->
  trimmed ∈ used ->
  substring 0 41 trimmed +:+ "..." ∈ used ->
  uniqueMenuLabel fuel base used = None.
Proof.
  cbv zeta. intros Hlen Hused Hcandidate. unfold uniqueMenuLabel.
  rewrite bool_decide_eq_true_2 by done.
  apply uniqueMenuLabel_loop_stuck. intros j.
  destruct (sanitizeButtonText_shape base 44) as (Htidy & Hends & _); [lia|].
  destruct Hends as [Hempty|[Hstart Hend]];
    [rewrite Hempty in Hlen; cbn in Hlen; lia|].
  by rewrite candidate_stuck.
Qed.


Lemma uniqueMenuLabel_never_returns_witness :
  let label := sanitizeButtonText longName 44 in
  label = "un-proyecto-con-un-nombre-verdaderamente-..."
  /\ uniqueMenuLabel 1000 longName {[ label ]} = None.
Proof.
  cbv zeta. split; [vm_compute; reflexivity|].
  apply uniqueMenuLabel_never_returns.
  - vm_compute. lia.
  - apply elem_of_singleton. reflexivity.
  - apply elem_of_singleton. vm_compute. reflexivity.
Defined.

Lemma menuLabels_from_some (fuel : nat) (bases : list string)
    (used : gset string) (labels : list string) :
  menuLabels_from fuel bases used = Some labels ->
  NoDup labels
  /\ Forall (fun label => label ∉ used) labels
  /\ length labels = length bases
  /\ Forall (fun label => (String.length label <= 44)%nat) labels.
Proof.
  revert used labels. induction bases as [|base rest IH]; intros used labels.
  - intros [= <-]. repeat split; constructor.
  - cbn. destruct (uniqueMenuLabel fuel base used) as [[label used']|] eqn:Hone;
      [|done].
    destruct (menuLabels_from fuel rest used') as [labels'|] eqn:Hrest; [|done].
    intros [= <-].
    destruct (uniqueMenuLabel_some _ _ _ _ _ Hone) as (Hfresh & -> & Hlen & _).
    destruct (IH _ _ Hrest) as (Hnodup & Hall & Hlength & Hlens).
    split; [|split; [|split]].
    + constructor; [|done]. intros Hin.
      rewrite Forall_forall in Hall. apply (Hall _ Hin).
      apply elem_of_union_l, elem_of_singleton. reflexivity.
    + constructor; [done|]. eapply Forall_impl; [exact Hall|].
      intros l Hl Hu. apply Hl, elem_of_union_r, Hu.
    + cbn. by rewrite Hlength.
    + by constructor.
Qed.

(** X27. The labels of a menu are distinct: when [buildProjectMenuEntries]
    or [buildSessionMenuEntries] returns, the entries have labels that
    differ from one another, one for each entry, of at most 44
    characters. *)
Theorem menuLabels_distinct (fuel : nat) (bases labels : list string) :
  menuLabels fuel bases = Some labels ->
  NoDup labels
  /\ length labels = length bases
  /\ Forall (fun label => (String.length label <= 44)%nat) labels.
Proof.
  intros Hsome.
  by destruct (menuLabels_from_some _ _ _ _ Hsome) as (? & _ & ? & ?).
Qed.

Lemma menuLabels_distinct_witness :
  menuLabels 10 ["aipal"; "docs"; "aipal"; " aipal  "]
  = Some ["aipal"; "docs"; "aipal (2)"; "aipal (3)"]
  /\ NoDup ["aipal"; "docs"; "aipal (2)"; "aipal (3)"].
Proof.
  assert (Hlabels : menuLabels 10 ["aipal"; "docs"; "aipal"; " aipal  "]
                    = Some ["aipal"; "docs"; "aipal (2)"; "aipal (3)"])
    by (vm_compute; reflexivity).
  split; [exact Hlabels|].
  by destruct (menuLabels_distinct _ _ _ Hlabels) as [? _].
Defined.

Lemma menuLabels_from_stuck (fuel : nat) (base : string)
    (rest post : list string) (used : gset string) :
  (44 < String.length (Js.trim (collapse base)))%nat ->
  sanitizeButtonText base 44 ∈ used ->
  menuLabels_from fuel (rest ++ base :: post) used = None.
Proof.
  intros Hlong. revert used. induction rest as [|other rest IH]; intros used Hin.
  - cbn.
    assert (Hlabel : sanitizeButtonText base 44
                     = substring 0 41 (Js.trim (collapse base)) +:+ "...").
    { unfold sanitizeButtonText.
      destruct (Z.leb_spec (Z.of_nat (String.length (Js.trim (collapse base)))) 44)
        as [?|_]; [lia|].
      by rewrite slice_to_prefix by lia. }
    assert (Hlen : String.length (sanitizeButtonText base 44) = 44%nat).
    { rewrite Hlabel, str_length_app, substring_length.
      change (String.length "...") with 3%nat. lia. }
    destruct (sanitizeButtonText_shape base 44) as (Htidy & Hends & _); [lia|].
    destruct Hends as [Hempty|[Hstart Hend]];
      [rewrite Hempty in Hlen; discriminate|].
    unfold uniqueMenuLabel. rewrite bool_decide_eq_true_2 by done.
    rewrite uniqueMenuLabel_loop_stuck; [done|]. intros j.
    rewrite candidate_stuck by (done || lia).
    rewrite Hlabel at 1. rewrite substring_app
      by (rewrite substring_length; lia).
    assert (Hsub : substring 0 41 (substring 0 41 (Js.trim (collapse base)))
                   = substring 0 41 (Js.trim (collapse base))).
    { apply substring_all. rewrite substring_length. lia. }
    rewrite Hsub, <- Hlabel. exact Hin.
  - cbn. destruct (uniqueMenuLabel fuel other used) as [[label used']|] eqn:Hone;
      [|done].
    destruct (uniqueMenuLabel_some _ _ _ _ _ Hone) as (_ & -> & _ & _).
    rewrite IH; [done|]. apply elem_of_union_r, Hin.
Qed.

(** X28. A menu that holds twice a base whose sanitized text is longer than
    44 characters is never built: the second entry of that base finds its
    truncated label used, and every candidate of the loop is that label
    again, so that [uniqueMenuLabel] returns within no number of
    iterations. *)
Theorem menuLabels_same_long_base
    (fuel : nat) (base : string) (before between after : list string) :
  (44 < String.length (Js.trim (collapse base)))%nat ->
  menuLabels fuel (before ++ base :: between ++ base :: after) = None.
Proof.
  intros Hlong. unfold menuLabels. generalize (∅ : gset string).
  induction before as [|other before IH]; intros used.
  - cbn. destruct (uniqueMenuLabel fuel base used) as [[label used']|] eqn:Hone;
      [|done].
    destruct (uniqueMenuLabel_some _ _ _ _ _ Hone) as (_ & _ & _ & Hin).
    by rewrite menuLabels_from_stuck.
  - cbn. destruct (uniqueMenuLabel fuel other used) as [[label used']|];
      [|done].
    by rewrite IH.
Qed.

Lemma menuLabels_same_long_base_witness :
  menuLabels 1000 ["aipal"; longName; "docs"; longName] = None.
Proof.
  apply (menuLabels_same_long_base 1000 longName ["aipal"] ["docs"] []).
  vm_compute. lia.
Defined.

End MenuLabels.

Section MenuPages.

Import Settings.

Lemma ceil_div_bounds (n : Z) (k : positive) :
  0 <= n ->
  n <= ceil_div n (Z.pos k) * Z.pos k < n + Z.pos k.
Proof.
  intros Hn. unfold ceil_div.
  pose proof (Z.div_mod (n + Z.pos k - 1) (Z.pos k) ltac:(lia)) as Hdiv.
  pose proof (Z.mod_pos_bound (n + Z.pos k - 1) (Z.pos k) ltac:(lia)) as Hmod.
  lia.
Qed.

Lemma chunks_concat {A} (k count : nat) (entries : list A) :
  (length entries <= count * k)%nat ->
  concat (map (fun p : nat => take k (drop (p * k) entries)) (seq 0 count))
  = entries.
Proof.
  revert entries. induction count as [|count IH]; intros entries Hlen.
  - cbn in *. by destruct entries; [|cbn in Hlen; lia].
  - cbn [seq map concat]. rewrite <- seq_shift, map_map. cbn [Nat.mul drop].
    transitivity (take k entries ++ drop k entries); [|apply take_drop].
    f_equal.
    rewrite <- (IH (drop k entries)) by (rewrite length_drop; lia).
    f_equal. apply map_ext. intros p. f_equal.
    rewrite drop_drop. f_equal.
Qed.

Lemma getPagedEntries_page {A} (entries : list A) (pageSize : positive) (p : Z) :
  let paged := getPagedEntries entries 0 pageSize in
  0 <= p < totalPages paged ->
  getPagedEntries entries p pageSize
  = {| pageEntries := take (Pos.to_nat pageSize)
                        (drop (Z.to_nat p * Pos.to_nat pageSize) entries);
       page := p;
       totalPages := totalPages paged;
       totalItems := Z.of_nat (length entries) |}.
Proof.
  cbv zeta. unfold getPagedEntries. cbn [totalPages]. intros Hp.
  rewrite (Z.max_r 0 p), (Z.min_l p) by lia. unfold slice. f_equal.
  f_equal; [lia|]. f_equal. lia.
Qed.

(** X29. The pages of [getPagedEntries] partition the entries: the pages
    from the first to the last, one after the other, are the entries; the
    page shown is the page asked for when there is one and the nearest page
    otherwise; a page has at most [pageSize] entries, and at least one when
    there are entries. *)
Theorem getPagedEntries_partition {A} (entries : list A) (pageSize : positive) :
  concat (pages entries pageSize) = entries
  /\ forall asked : Z,
       let paged := getPagedEntries entries asked pageSize in
       page paged = Z.min (Z.max 0 asked) (totalPages paged - 1)
       /\ 0 <= page paged < totalPages paged
       /\ (length (pageEntries paged) <= Pos.to_nat pageSize)%nat
       /\ (entries <> [] -> pageEntries paged <> []).
Proof.
  pose proof (ceil_div_bounds (Z.of_nat (length entries)) pageSize ltac:(lia))
    as Hceil.
  split.
  - unfold pages.
    rewrite <- (chunks_concat (Pos.to_nat pageSize)
                  (Z.to_nat (totalPages (getPagedEntries entries 0 pageSize)))
                  entries) at 2.
    + f_equal. apply map_ext_in. intros p Hp%in_seq.
      rewrite getPagedEntries_page by lia. cbn [pageEntries].
      by rewrite Nat2Z.id.
    + cbn [getPagedEntries totalPages]. nia.
  - intros asked. cbv zeta. unfold getPagedEntries.
    cbn [page totalPages pageEntries].
    split; [reflexivity|]. split; [lia|]. split.
    + unfold slice. rewrite length_take. lia.
    + intros Hne. unfold slice.
      assert (Hlen : (0 < length entries)%nat) by (destruct entries; cbn; [done|lia]).
      set (total := Z.max 1 (ceil_div (Z.of_nat (length entries)) (Z.pos pageSize))) in *.
      set (safe := Z.min (Z.max 0 asked) (total - 1)).
      assert (Hstart : (Z.to_nat (safe * Z.pos pageSize) < length entries)%nat)
        by (unfold safe, total; nia).
      intros Hnil. apply (f_equal length) in Hnil.
      rewrite length_take, length_drop in Hnil. cbn in Hnil. lia.
Qed.

End MenuPages.
